(** * Ollama / OpenAI voice assistant: the orchestration core

    A shallow embedding of [Ollama_OpenAI_Assistant.py]: the wake-word /
    command / stop control flow ([continuous_chat_with_vosk],
    [handle_recognized_text], [listen_for_command], [vosk_listen]), the
    dual-backend dispatch ([respond_to_text], [get_ollama_response],
    [get_openai_response] and their response processing) and the speaker
    glue ([speak]).

    The two global [threading.Event]s, the audio queue and everything the
    program prints or sends to the speech engine are fields of an explicit
    [State]; the external collaborators (recognizer, HTTP transport, JSON
    decoder, speech engine, thread scheduler) are the fields of a [World]
    record the whole development is parametric in. *)

From Stdlib Require Import Bool Arith ZArith Lia List Permutation.
From Stdlib Require Import Strings.Ascii Strings.String Numbers.DecimalString.
Import ListNotations.

Set Warnings "-register-all".

Local Open Scope list_scope.
Local Open Scope string_scope.

(* ===================================================================== *)
(** ** Text: [str.lower()] and the [in] operator on strings               *)
(* ===================================================================== *)

Module Text.

(** [str.lower()] on one character.  Utterances are byte strings here; only
    the ASCII capitals change, which is all that matters for matching the
    ASCII words "stop" and "hello". *)
Definition lower_ascii (c : ascii) : ascii :=
  let n := nat_of_ascii c in
  if andb (65 <=? n)%nat (n <=? 90)%nat then ascii_of_nat (n + 32) else c.

(** [text.lower()] *)
Fixpoint lower (s : string) : string :=
  match s with
  | EmptyString => EmptyString
  | String c rest => String (lower_ascii c) (lower rest)
  end.

(** [hay.startswith(needle)], the one-position test behind [in]. *)
Fixpoint starts_with (needle hay : string) : bool :=
  match needle, hay with
  | EmptyString, _ => true
  | String _ _, EmptyString => false
  | String a n', String b h' => andb (Ascii.eqb a b) (starts_with n' h')
  end.

(** [needle in hay] on Python strings: a substring test at every offset. *)
Fixpoint contains (needle hay : string) : bool :=
  orb (starts_with needle hay)
      match hay with
      | EmptyString => false
      | String _ rest => contains needle rest
      end.

(** What "[w] occurs in [u], ignoring case, at any position" means,
    independently of how the program tests it: some stretch of [u] reads
    [w] once lowered. *)
Definition occurs_ignoring_case (w u : string) : Prop :=
  exists pre mid post, u = pre ++ mid ++ post /\ lower mid = w.

(** Python truthiness of a string: [if text:] *)
Definition truthy (s : string) : bool :=
  match s with EmptyString => false | String _ _ => true end.

End Text.

(* ===================================================================== *)
(** ** Python values, exceptions and HTTP responses                       *)
(* ===================================================================== *)

Module Py.

(** The values [json.loads] / [response.json()] produce, and so the values
    that can reach [print] and [speak].  A float is kept as its decimal
    literal [digits * 10^exp10]. *)
Inductive value : Type :=
| VNone
| VBool (b : bool)
| VInt (z : Z)
| VFloat (digits exp10 : Z)
| VStr (s : string)
| VList (l : list value)
| VDict (d : list (string * value)).

(** Exceptions the program can meet.  [RequestException msg] stands for
    [requests.exceptions.RequestException] and its subclasses, with
    [str(e) = msg]; it is the only class the program ever catches. *)
Inductive exn : Type :=
| RequestException (msg : string)
| JSONDecodeError
| AttributeError
| IndexError
| KeyError
| TypeError
| OtherError (msg : string).

Inductive result (A : Type) : Type :=
| Ok (a : A)
| Err (e : exn).
Arguments Ok {A} a.
Arguments Err {A} e.

Definition rbind {A B : Type} (c : result A) (k : A -> result B) : result B :=
  match c with
  | Ok a => k a
  | Err e => Err e
  end.

(** Key lookup in a dict as [json] builds it (keys are strings). *)
Fixpoint dict_get (d : list (string * value)) (key : string) : option value :=
  match d with
  | [] => None
  | (k, v) :: rest => if String.eqb k key then Some v else dict_get rest key
  end.

(** [obj.get(key, default)]: only a dict has the method. *)
Definition get (obj : value) (key : string) (default : value) : result value :=
  match obj with
  | VDict d => Ok (match dict_get d key with Some v => v | None => default end)
  | _ => Err AttributeError
  end.

(** [obj[0]] *)
Definition index0 (obj : value) : result value :=
  match obj with
  | VList (x :: _) => Ok x
  | VList [] => Err IndexError
  | VStr (String c _) => Ok (VStr (String c EmptyString))
  | VStr EmptyString => Err IndexError
  | VDict _ => Err KeyError
  | _ => Err TypeError
  end.

(** [str(n)] / [f"{n}"] for an int. *)
Definition str_of_int (n : Z) : string := NilZero.string_of_int (Z.to_int n).

(** What the program observes of a [requests.Response]. *)
Record Response : Type := {
  status_code : Z;
  text : string;
  iter_lines : list string;
  json : result value
}.

End Py.
Export Py.

Declare Scope result_scope.
Delimit Scope result_scope with result.
Notation "x <~ c ;; k" := (rbind c (fun x => k))
  (at level 61, c at next level, right associativity) : result_scope.

(* ===================================================================== *)
(** ** The world outside the program, and the program's state             *)
(* ===================================================================== *)

Inductive backend : Type := Local | Cloud.

(** The collaborators the program calls into.  Nothing below looks inside
    them; every theorem holds for every world. *)
Record World : Type := {
  (** one block of PCM bytes as the audio callback enqueues it *)
  Frame : Type;
  (** the Kaldi decoder: its state, a fresh decoder, and feeding it a block;
      [Some t] is [AcceptWaveform] returning true with
      [json.loads(rec.Result())["text"] = t] *)
  Recognizer : Type;
  KaldiRecognizer : Recognizer;
  AcceptWaveform : Recognizer -> Frame -> Recognizer * option string;
  (** device query, model load and opening of the input stream at the top
      of [vosk_listen]: [Some e] when one of them raises *)
  vosk_setup : option exn;
  (** [requests.post(url, headers=..., json=...)] *)
  requests_post : string -> list (string * string) -> value -> result Response;
  (** [json.loads] *)
  json_loads : string -> result value;
  (** wall-clock duration [measure_total_time] observes around a call *)
  Duration : Type;
  elapsed : string -> Duration;
  (** how the thread pool interleaves the two workers of one dispatch:
      [true] lets the local worker make its next move, [false] the cloud
      worker *)
  scheduler : string -> list bool;
  (** [engine.say(text); engine.runAndWait()]: [Some e] when the engine
      raises *)
  synthesize : value -> option exn
}.

Section Assistant.

Variable W : World.

(** What arrives while the main thread waits in [q.get()]: a block put by
    the audio callback, or another thread setting the shared [stop_flag]
    event (the program itself sets it only from the main thread; the second
    constructor is there to say what the wait does if someone else does). *)
Inductive arrival : Type :=
| Audio (data : Frame W)
| StopRaised.

(** Everything the program does to the outside, in order. *)
Inductive effect : Type :=
| Print (v : value)
| PrintTime (b : backend) (d : Duration W) (detail : string)
| Post (b : backend) (data : value)
| EngineStop
| EngineSetProperty (name : string) (v : value)
| EngineSay (v : value).

(** The globals [stop_flag], [tts_active] and [q], and the log of effects. *)
Record State : Type := {
  stop_flag : bool;
  tts_active : bool;
  q : list arrival;
  trace : list effect
}.

Definition set_stop_flag (s : State) : State :=
  {| stop_flag := true; tts_active := tts_active s; q := q s; trace := trace s |}.

Definition set_tts_active (b : bool) (s : State) : State :=
  {| stop_flag := stop_flag s; tts_active := b; q := q s; trace := trace s |}.

Definition with_q (q' : list arrival) (s : State) : State :=
  {| stop_flag := stop_flag s; tts_active := tts_active s; q := q'; trace := trace s |}.

Definition emit (es : list effect) (s : State) : State :=
  {| stop_flag := stop_flag s; tts_active := tts_active s; q := q s;
     trace := (trace s ++ es)%list |}.

(** How a call on the main thread can end: it returns, an exception leaves
    it, it waits for audio that never comes, or the model's step budget
    ran out. *)
Inductive Res (A : Type) : Type :=
| Ret (a : A) (s : State)
| Raise (e : exn) (s : State)
| Blocked (s : State)
| OutOfFuel.
Arguments Ret {A} a s.
Arguments Raise {A} e s.
Arguments Blocked {A} s.
Arguments OutOfFuel {A}.

Definition M (A : Type) : Type := State -> Res A.

Definition ret {A : Type} (a : A) : M A := fun s => Ret a s.

Definition bind {A B : Type} (c : M A) (k : A -> M B) : M B :=
  fun s =>
    match c s with
    | Ret a s' => k a s'
    | Raise e s' => Raise e s'
    | Blocked s' => Blocked s'
    | OutOfFuel => OutOfFuel
    end.

Definition raise {A : Type} (e : exn) : M A := fun s => Raise e s.

Definition do (es : list effect) : M unit := fun s => Ret tt (emit es s).

Definition print (msg : string) : M unit := do [Print (VStr msg)].

Definition final {A : Type} (r : Res A) : option State :=
  match r with
  | Ret _ s | Raise _ s | Blocked s => Some s
  | OutOfFuel => None
  end.

Notation "x <- c ;; k" := (bind c (fun x => k))
  (at level 61, c at next level, right associativity).
Notation "c ;; k" := (bind c (fun _ => k))
  (at level 61, right associativity).

(* --------------------------------------------------------------------- *)
(** *** Configuration constants                                           *)
(* --------------------------------------------------------------------- *)

Definition WAKE_WORD : string := "hello".

Definition ollama_url : string := "http://localhost:11434/api/generate".
Definition openai_url : string := "https://api.openai.com/v1/chat/completions".
Definition api_key : string := "OPENAI_KEY".

Definition ollama_headers : list (string * string) :=
  [("Content-Type", "application/json")].

Definition ollama_data (prompt : string) : value :=
  VDict [("model", VStr "tinydolphin");
         ("prompt", VStr prompt);
         ("stream", VBool false);
         ("system", VStr "You are a helpful assistant. You will answer the question in 30 to 40 words.");
         ("options", VDict [("num_keep", VInt 0);
                            ("top_k", VInt 10);
                            ("temperature", VFloat 8 (-1))])].

Definition openai_headers : list (string * string) :=
  [("Authorization", "Bearer " ++ api_key);
   ("Content-Type", "application/json")].

Definition openai_data (prompt : string) : value :=
  VDict [("model", VStr "gpt-3.5-turbo");
         ("messages", VList [VDict [("role", VStr "user"); ("content", VStr prompt)]]);
         ("max_tokens", VInt 100)].

(* --------------------------------------------------------------------- *)
(** *** The two backends (run on pool workers; they touch no global)      *)
(* --------------------------------------------------------------------- *)

(** [measure_total_time(func, *args, **kwargs)] *)
Definition measure_total_time
    (func : string -> list (string * string) -> value -> result Response)
    (url : string) (headers : list (string * string)) (data : value)
  : result (Response * Duration W) :=
  (result_ <~ func url headers data ;;
   Ok (result_, elapsed W url))%result.

(** [process_ollama_response]: the loop over [response.iter_lines()],
    [full_response] being the accumulator. *)
Fixpoint process_ollama_lines (response_lines : list string) (full_response : string)
  : result string :=
  match response_lines with
  | [] => Ok full_response
  | line :: rest =>
      if Text.truthy line then
        (response_json <~ json_loads W line ;;
         fragment <~ get response_json "response" (VStr "") ;;
         match fragment with
         | VStr piece => process_ollama_lines rest (full_response ++ piece)
         | _ => Err TypeError
         end)%result
      else process_ollama_lines rest full_response
  end.

Definition process_ollama_response (response : Response) : result string :=
  process_ollama_lines (iter_lines response) "".

(** [get_ollama_response]: what the worker does to the outside, and what
    its future holds.  No exception is caught here. *)
Definition get_ollama_response (prompt : string) : list effect * result string :=
  let data := ollama_data prompt in
  match measure_total_time (requests_post W) ollama_url ollama_headers data with
  | Err e => ([Post Local data], Err e)
  | Ok (response, total_time) =>
      match process_ollama_response response with
      | Err e => ([Post Local data], Err e)
      | Ok full_response =>
          ([Post Local data; PrintTime Local total_time full_response], Ok full_response)
      end
  end.

Definition process_openai_response (response : Response) : result value :=
  if (status_code response =? 200)%Z then
    (body <~ json response ;;
     choices <~ get body "choices" (VList [VDict []]) ;;
     first <~ index0 choices ;;
     message <~ get first "message" (VDict []) ;;
     get message "content" (VStr "No response content."))%result
  else
    Ok (VStr ("Error: " ++ str_of_int (status_code response) ++ " - " ++ text response)).

(** The [except requests.exceptions.RequestException as e] clause. *)
Definition openai_except (e : exn) : result value :=
  match e with
  | RequestException msg => Ok (VStr ("OpenAI API Request Failed: " ++ msg))
  | _ => Err e
  end.

Definition get_openai_response (prompt : string) : list effect * result value :=
  let data := openai_data prompt in
  match measure_total_time (requests_post W) openai_url openai_headers data with
  | Err e => ([Post Cloud data], openai_except e)
  | Ok (response, total_time) =>
      match process_openai_response response with
      | Err e => ([Post Cloud data], openai_except e)
      | Ok result_ => ([Post Cloud data; PrintTime Cloud total_time ""], Ok result_)
      end
  end.

(* --------------------------------------------------------------------- *)
(** *** Speaker                                                           *)
(* --------------------------------------------------------------------- *)

Definition speak (text : value) : M unit :=
  fun s =>
    let s1 := set_tts_active true s in
    let s2 := emit [EngineSetProperty "rate" (VInt 150);
                    EngineSetProperty "volume" (VFloat 9 (-1));
                    EngineSetProperty "voice" (VStr "english+f3");
                    EngineSay text] s1 in
    match synthesize W text with
    | Some e => Raise e s2
    | None => Ret tt (set_tts_active false s2)
    end.

(* --------------------------------------------------------------------- *)
(** *** Dispatch                                                          *)
(* --------------------------------------------------------------------- *)

(** One run of the two pool workers, as the order of their effects. *)
Fixpoint interleave (sched : list bool) (a b : list effect) : list effect :=
  match sched with
  | [] => (a ++ b)%list
  | true :: sched' =>
      match a with
      | x :: a' => x :: interleave sched' a' b
      | [] => b
      end
  | false :: sched' =>
      match b with
      | y :: b' => y :: interleave sched' a b'
      | [] => a
      end
  end.

(** [respond_to_text].  Both futures are submitted, then [.result()] is
    taken of the local one and of the cloud one; [.result()] re-raises what
    the worker raised, and leaving the [with] block waits for both workers
    either way. *)
Definition respond_to_text (text : string) : M unit :=
  fun s =>
    let (ollama_effects, ollama_future) := get_ollama_response text in
    let (openai_effects, openai_future) := get_openai_response text in
    let s1 := emit (interleave (scheduler W text) ollama_effects openai_effects) s in
    match ollama_future with
    | Err e => Raise e s1
    | Ok ollama_response =>
        match openai_future with
        | Err e => Raise e s1
        | Ok openai_response =>
            (do [Print (VStr (String "010" "Ollama LLM Response:"));
                 Print (VStr ollama_response);
                 Print (VStr (String "010" "OpenAI Response:"));
                 Print openai_response] ;;
             speak (VStr ollama_response) ;;
             speak openai_response) s1
        end
    end.

(* --------------------------------------------------------------------- *)
(** *** Listening                                                         *)
(* --------------------------------------------------------------------- *)

(** [q.get()] with no timeout: returns the next block once the callback
    has put one ([inl]).  It never looks at [stop_flag]; if another thread
    sets the flag during the wait, the wait goes on.  [inr]: no block ever
    comes and the call does not return. *)
Fixpoint q_get_from (pending : list arrival) (s : State) : Frame W * State + State :=
  match pending with
  | [] => inr (with_q [] s)
  | Audio data :: rest => inl (data, with_q rest s)
  | StopRaised :: rest => q_get_from rest (set_stop_flag s)
  end.

Definition q_get (s : State) : Frame W * State + State := q_get_from (q s) s.

(** The [while not stop_flag.is_set()] loop of [vosk_listen], [rec] being
    the decoder.  Falling out of the loop returns [None]. *)
Fixpoint vosk_listen_loop (fuel : nat) (rec : Recognizer W) : M (option string) :=
  match fuel with
  | O => fun _ => OutOfFuel
  | S fuel' =>
      fun s =>
        if stop_flag s then Ret None s
        else
          match q_get s with
          | inr s1 => Blocked s1
          | inl (data, s1) =>
              match AcceptWaveform W rec data with
              | (rec', Some result_text) =>
                  if Text.truthy result_text then
                    (print ("Recognized: " ++ result_text) ;;
                     ret (Some result_text)) s1
                  else vosk_listen_loop fuel' rec' s1
              | (rec', None) => vosk_listen_loop fuel' rec' s1
              end
          end
  end.

Definition vosk_listen (fuel : nat) : M (option string) :=
  fun s =>
    match vosk_setup W with
    | Some e => Raise e s
    | None => vosk_listen_loop fuel (KaldiRecognizer W) s
    end.

(** [listen_for_command]: [break] and falling out of the loop both return
    [None]. *)
Fixpoint listen_for_command (fuel : nat) : M (option string) :=
  match fuel with
  | O => fun _ => OutOfFuel
  | S fuel' =>
      fun s =>
        if stop_flag s then Ret None s
        else
          (text <- vosk_listen fuel' ;;
           match text with
           | Some t =>
               if Text.truthy t then
                 if Text.contains "stop" (Text.lower t) then
                   (fun s' => Ret tt (set_stop_flag s')) ;;
                   print "Exiting..." ;;
                   ret None
                 else
                   fun s' =>
                     if negb (tts_active s') then Ret (Some t) s'
                     else (print "TTS active, waiting..." ;;
                           listen_for_command fuel') s'
               else listen_for_command fuel'
           | None => listen_for_command fuel'
           end) s
  end.

(* --------------------------------------------------------------------- *)
(** *** Interpreting an utterance, and the top-level loop                 *)
(* --------------------------------------------------------------------- *)

Definition handle_recognized_text (fuel : nat) (text : string) : M unit :=
  if Text.contains "stop" (Text.lower text) then
    (fun s => Ret tt (set_stop_flag s)) ;;
    do [EngineStop] ;;
    print "Stopping TTS and resetting..."
  else if Text.contains WAKE_WORD (Text.lower text) then
    print "Wake word detected, listening for command..." ;;
    command <- listen_for_command fuel ;;
    match command with
    | Some c => if Text.truthy c then respond_to_text c else ret tt
    | None => ret tt
    end
  else ret tt.

(** The [while not stop_flag.is_set()] loop of [continuous_chat_with_vosk]. *)
Fixpoint chat_loop (fuel : nat) : M unit :=
  match fuel with
  | O => fun _ => OutOfFuel
  | S fuel' =>
      fun s =>
        if stop_flag s then Ret tt s
        else
          (recognized_text <- vosk_listen fuel' ;;
           match recognized_text with
           | Some t =>
               if Text.truthy t then handle_recognized_text fuel' t else ret tt
           | None => ret tt
           end ;;
           chat_loop fuel') s
  end.

Definition continuous_chat_with_vosk (fuel : nat) : M unit :=
  print "Say 'stop' to end the chat. Use the wake word 'hello' to activate." ;;
  chat_loop fuel.

End Assistant.

Arguments Audio {W} data.
Arguments StopRaised {W}.
Arguments Print {W} v.
Arguments PrintTime {W} b d detail.
Arguments Post {W} b data.
Arguments EngineStop {W}.
Arguments EngineSetProperty {W} name v.
Arguments EngineSay {W} v.
Arguments stop_flag {W} s.
Arguments tts_active {W} s.
Arguments q {W} s.
Arguments trace {W} s.
Arguments set_stop_flag {W} s.
Arguments set_tts_active {W} b s.
Arguments with_q {W} q' s.
Arguments emit {W} es s.
Arguments Ret {W A} a s.
Arguments Raise {W A} e s.
Arguments Blocked {W A} s.
Arguments OutOfFuel {W A}.
Arguments ret {W A} a s.
Arguments bind {W A B} c k s.
Arguments do {W} es s.
Arguments print {W} msg s.
Arguments final {W A} r.
Arguments interleave {W} sched a b.
Arguments q_get {W} s.
Arguments q_get_from {W} pending s.

Notation "x <- c ;; k" := (bind c (fun x => k))
  (at level 61, c at next level, right associativity).
Notation "c ;; k" := (bind c (fun _ => k))
  (at level 61, right associativity).

(* ===================================================================== *)
(** ** A small concrete world, to run the program on                      *)
(* ===================================================================== *)

Module Demo.

Definition dq : string := String "034" EmptyString.

(** The JSON text of [{"response": fragment}] *)
Definition response_line (fragment : string) : string :=
  "{" ++ dq ++ "response" ++ dq ++ ":" ++ dq ++ fragment ++ dq ++ "}".

(** A decoder that knows the two lines of the "Four." exchange. *)
Definition loads (line : string) : result value :=
  if String.eqb line (response_line "Four") then Ok (VDict [("response", VStr "Four")])
  else if String.eqb line (response_line ".") then Ok (VDict [("response", VStr ".")])
  else Err JSONDecodeError.

Definition four_response : Response :=
  {| status_code := 200;
     text := response_line "Four" ++ String "010" (response_line ".");
     iter_lines := [response_line "Four"; response_line "."];
     json := Err JSONDecodeError |}.

Definition server_error : Response :=
  {| status_code := 500;
     text := "server error";
     iter_lines := ["server error"];
     json := Err (RequestException "Expecting value: line 1 column 1 (char 0)") |}.

Definition chat_completion (content : string) : Response :=
  {| status_code := 200;
     text := "";
     iter_lines := [];
     json := Ok (VDict [("choices",
                   VList [VDict [("message",
                     VDict [("role", VStr "assistant"); ("content", VStr content)])]])]) |}.

(** Audio blocks are taken as already decoded: a block either ends an
    utterance (with its text) or does not. *)
Definition world
    (local cloud : result Response) (tts : value -> option exn) : World :=
  {| Frame := option string;
     Recognizer := unit;
     KaldiRecognizer := tt;
     AcceptWaveform := fun _ data => (tt, data);
     vosk_setup := None;
     requests_post := fun url _ _ => if String.eqb url ollama_url then local else cloud;
     json_loads := loads;
     Duration := unit;
     elapsed := fun _ => tt;
     scheduler := fun _ => [false; false; true; true];
     synthesize := tts |}.

(** Both backends up, the engine working. *)
Definition healthy : World :=
  world (Ok four_response) (Ok (chat_completion "Two plus two is four.")) (fun _ => None).

(** The local backend is down. *)
Definition local_down : World :=
  world (Err (RequestException "Connection refused"))
        (Ok (chat_completion "Two plus two is four.")) (fun _ => None).

(** The cloud backend is unreachable. *)
Definition cloud_down : World :=
  world (Ok four_response) (Err (RequestException "Connection refused")) (fun _ => None).

(** The cloud backend answers 500. *)
Definition cloud_500 : World :=
  world (Ok four_response) (Ok server_error) (fun _ => None).

(** The speech engine raises. *)
Definition engine_broken : World :=
  world (Ok four_response) (Ok (chat_completion "Two plus two is four."))
        (fun _ => Some (OtherError "run loop already started")).

Definition start (W : World) (arrivals : list (@arrival W)) : State W :=
  {| stop_flag := false; tts_active := false; q := arrivals; trace := [] |}.

End Demo.

(* ===================================================================== *)
(** ** Vocabulary of the statements                                       *)
(* ===================================================================== *)

Section Vocabulary.

Variable W : World.

(** [s'] comes after [s]: the stop flag was not cleared, nothing was put
    back on the queue, and the log only grew, by effects all satisfying
    [P]. *)
Definition after (P : @effect W -> Prop) (s s' : State W) : Prop :=
  (stop_flag s = true -> stop_flag s' = true) /\
  (List.length (q s') <= List.length (q s))%nat /\
  exists es, trace s' = (trace s ++ es)%list /\ Forall P es.

(** The same, for however a call ended. *)
Definition ends_after {A : Type} (P : @effect W -> Prop) (s : State W) (r : Res W A) : Prop :=
  match final r with
  | Some s' => after P s s'
  | None => True
  end.

Definition is_print (e : @effect W) : Prop :=
  match e with Print _ => True | _ => False end.

(** What a call of the listening loop guarantees, by the way it ends. *)
Definition listened (fuel : nat) (s : State W) (r : Res W (option string)) : Prop :=
  match r with
  | Ret (Some t) s' =>
      t <> "" /\ (List.length (q s') < List.length (q s))%nat /\
      tts_active s' = tts_active s /\ after is_print s s'
  | Ret None s' =>
      stop_flag s' = true /\ tts_active s' = tts_active s /\ after is_print s s'
  | Raise e s' =>
      vosk_setup W = Some e /\ tts_active s' = tts_active s /\ after is_print s s'
  | Blocked s' => tts_active s' = tts_active s /\ after is_print s s'
  | OutOfFuel => (fuel <= List.length (q s))%nat
  end.

(** What [listen_for_command] guarantees, by the way it ends. *)
Definition captured (fuel : nat) (s : State W) (r : Res W (option string)) : Prop :=
  match r with
  | Ret (Some c) s' =>
      c <> "" /\ Text.contains "stop" (Text.lower c) = false /\
      tts_active s = false /\ tts_active s' = false /\
      (List.length (q s') < List.length (q s))%nat /\ after is_print s s'
  | Ret None s' =>
      stop_flag s' = true /\ tts_active s' = tts_active s /\ after is_print s s'
  | Raise e s' =>
      vosk_setup W = Some e /\ tts_active s' = tts_active s /\ after is_print s s'
  | Blocked s' => tts_active s' = tts_active s /\ after is_print s s'
  | OutOfFuel => (fuel <= List.length (q s) + 1)%nat
  end.

(** What one [speak(text)] sends to the engine. *)
Definition speak_effects (text : value) : list (@effect W) :=
  [EngineSetProperty "rate" (VInt 150);
   EngineSetProperty "volume" (VFloat 9 (-1));
   EngineSetProperty "voice" (VStr "english+f3");
   EngineSay text].

(** The texts handed to the engine, in order. *)
Fixpoint spoken (es : list (@effect W)) : list value :=
  match es with
  | [] => []
  | EngineSay v :: rest => v :: spoken rest
  | _ :: rest => spoken rest
  end.

(** The request body a backend receives for a prompt. *)
Definition request_data (b : backend) (prompt : string) : value :=
  match b with
  | Local => ollama_data prompt
  | Cloud => openai_data prompt
  end.

(** An effect that is not a request, or is a request for a non-empty
    prompt. *)
Definition well_dispatched (e : @effect W) : Prop :=
  match e with
  | Post b data => exists c, c <> "" /\ data = request_data b c
  | _ => True
  end.

(** The effects of the two workers of one dispatch, as the pool ran them. *)
Definition pool_effects (text : string) : list (@effect W) :=
  interleave (scheduler W text)
             (fst (get_ollama_response W text)) (fst (get_openai_response W text)).

(** The four lines [respond_to_text] prints once it has both results. *)
Definition response_prints (ollama_response : string) (openai_response : value)
  : list (@effect W) :=
  [Print (VStr (String "010" "Ollama LLM Response:"));
   Print (VStr ollama_response);
   Print (VStr (String "010" "OpenAI Response:"));
   Print openai_response].

(** What a call that returns nothing guarantees: where it ends comes after
    where it started, every request it made was for a non-empty prompt,
    and the step budget can only run out if it was no larger than the
    queue. *)
Definition ran (fuel : nat) (s : State W) (r : Res W unit) : Prop :=
  ends_after well_dispatched s r /\
  (r = OutOfFuel -> (fuel <= List.length (q s) + 1)%nat).

(** How one line of the local backend's reply contributes to the answer:
    an empty line and a JSON object without a ["response"] entry give the
    empty text, a JSON object with a text under ["response"] gives that
    text. *)
Inductive line_fragment : string -> string -> Prop :=
| empty_line : line_fragment "" ""
| object_without_response line d :
    line <> "" -> json_loads W line = Ok (VDict d) ->
    dict_get d "response" = None -> line_fragment line ""
| object_with_response line d piece :
    line <> "" -> json_loads W line = Ok (VDict d) ->
    dict_get d "response" = Some (VStr piece) -> line_fragment line piece.

(** In-order concatenation. *)
Fixpoint join (pieces : list string) : string :=
  match pieces with
  | [] => ""
  | piece :: rest => piece ++ join rest
  end.

(** [body["choices"][0]["message"]["content"]] is [content]. *)
Definition choices0_message_content (body content : value) : Prop :=
  exists d first others m,
    body = VDict d /\
    dict_get d "choices" = Some (VList (VDict first :: others)) /\
    dict_get first "message" = Some (VDict m) /\
    dict_get m "content" = Some content.

(** The text the cloud backend's failure is turned into. *)
Definition error_text (response : Response) : string :=
  "Error: " ++ str_of_int (status_code response) ++ " - " ++ text response.

(** What [respond_to_text] does once both workers are done. *)
Definition after_pool (text : string) : list (@effect W) :=
  match snd (get_ollama_response W text), snd (get_openai_response W text) with
  | Ok o, Ok c =>
      (response_prints o c ++ speak_effects (VStr o) ++
       match synthesize W (VStr o) with
       | None => speak_effects c
       | Some _ => []
       end)%list
  | _, _ => []
  end.

End Vocabulary.

Arguments after {W} P s s'.
Arguments ends_after {W A} P s r.
Arguments is_print {W} e.
Arguments listened {W} fuel s r.
Arguments captured {W} fuel s r.
Arguments speak_effects {W} text.
Arguments spoken {W} es.
Arguments well_dispatched {W} e.
Arguments response_prints {W} ollama_response openai_response.
Arguments ran {W} fuel s r.

(** The claim of C9 at one state: the listen call comes back with no
    utterance ("Cancelled"). *)
Definition returns_cancelled (W : World) (s : State W) : Prop :=
  exists fuel s', vosk_listen W fuel s = Ret None s'.

(* ===================================================================== *)
(** ** The audio callback, and more vocabulary                            *)
(* ===================================================================== *)

Section Producer.

Variable W : World.

(** [callback(indata, frames, time, status)], run by the audio subsystem:
    a truthy [status] is printed on stderr (the first component, [None]
    when nothing is printed), and the block is put on the queue either
    way.  [frames] and [time] are not used. *)
Definition callback (indata : Frame W) (status : option string) (s : State W)
  : option string * State W :=
  (status, with_q (q s ++ [Audio indata])%list s).

(** A run of callbacks, oldest first. *)
Fixpoint callbacks (calls : list (Frame W * option string)) (s : State W) : State W :=
  match calls with
  | [] => s
  | (indata, status) :: rest => callbacks rest (snd (callback indata status s))
  end.

(** Feeding blocks to a decoder that stays quiet: no block completes a
    non-empty utterance.  [Some rec'] is the decoder afterwards; [None]
    when some block does complete one. *)
Fixpoint run_quiet (rec : Recognizer W) (frames : list (Frame W))
  : option (Recognizer W) :=
  match frames with
  | [] => Some rec
  | data :: rest =>
      match AcceptWaveform W rec data with
      | (rec', Some t) => if Text.truthy t then None else run_quiet rec' rest
      | (rec', None) => run_quiet rec' rest
      end
  end.

(** The worker an effect belongs to, if it is a worker's. *)
Definition by_worker (b : backend) (e : @effect W) : bool :=
  match e, b with
  | Post Local _, Local | PrintTime Local _ _, Local => true
  | Post Cloud _, Cloud | PrintTime Cloud _ _, Cloud => true
  | _, _ => false
  end.

(** The requests among some effects, in order. *)
Fixpoint requests (es : list (@effect W)) : list (backend * value) :=
  match es with
  | [] => []
  | Post b data :: rest => (b, data) :: requests rest
  | _ :: rest => requests rest
  end.

(** With [tts_active] clear, the effects of the listening calls are lines
    "Recognized: ..." and, for command capture, "Exiting...". *)
Definition heard_line (e : @effect W) : Prop :=
  (exists t, e = Print (VStr ("Recognized: " ++ t))) \/ e = Print (VStr "Exiting...").

(** How a call that returns nothing may end on a finite run of arrivals:
    it returns with [stop_flag] set, an exception leaves it, or it waits
    on the emptied queue. *)
Definition ends_properly (r : Res W unit) : Prop :=
  match r with
  | Ret _ s' => stop_flag s' = true
  | Raise _ _ => True
  | Blocked s' => q s' = []
  | OutOfFuel => False
  end.

End Producer.

Arguments callback {W} indata status s.
Arguments callbacks {W} calls s.
Arguments by_worker {W} b e.
Arguments requests {W} es.
Arguments ends_properly {W} r.
Arguments heard_line {W} e.

(** A world whose input device cannot be opened. *)
Definition no_device : World :=
  {| Frame := option string;
     Recognizer := unit;
     KaldiRecognizer := tt;
     AcceptWaveform := fun _ data => (tt, data);
     vosk_setup := Some (OtherError "Invalid input device");
     requests_post := fun _ _ _ => Err (RequestException "unreachable");
     json_loads := Demo.loads;
     Duration := unit;
     elapsed := fun _ => tt;
     scheduler := fun _ => [];
     synthesize := fun _ => None |}.

(* ===================================================================== *)
(** ** Facts about the text operations                                    *)
(* ===================================================================== *)

Module TextFacts.
Import Text.

Lemma lower_app (a b : string) : lower (a ++ b) = lower a ++ lower b.
Proof.
  induction a as [|c a IH]; simpl; [reflexivity|].
  now rewrite IH.
Qed.

Lemma lower_length (a : string) : String.length (lower a) = String.length a.
Proof.
  induction a as [|c a IH]; simpl; [reflexivity|].
  now rewrite IH.
Qed.

(** Splitting a lowered text splits the text. *)
Lemma lower_split (u x y : string) :
  lower u = x ++ y ->
  exists u1 u2, u = u1 ++ u2 /\ lower u1 = x /\ lower u2 = y.
Proof.
  revert x. induction u as [|c u IH]; intros x H.
  - destruct x; simpl in H; [|discriminate].
    exists "", "". simpl in *. repeat split. exact H.
  - destruct x as [|d x]; simpl in H.
    + exists "", (String c u). repeat split. exact H.
    + injection H as Hd Hrest.
      destruct (IH _ Hrest) as (u1 & u2 & -> & H1 & H2).
      exists (String c u1), u2. simpl. rewrite H1, Hd. repeat split. exact H2.
Qed.

Lemma starts_with_spec (n h : string) :
  starts_with n h = true <-> exists post, h = n ++ post.
Proof.
  revert h. induction n as [|a n IH]; intros h; simpl.
  - split; [intros _; now exists h | reflexivity].
  - destruct h as [|b h].
    + split; [discriminate | intros [post H]; discriminate].
    + rewrite andb_true_iff, Ascii.eqb_eq, IH. split.
      * intros [-> [post ->]]. now exists post.
      * intros [post H]. injection H as -> ->. split; [reflexivity|now exists post].
Qed.

Lemma contains_spec (n h : string) :
  contains n h = true <-> exists pre post, h = pre ++ n ++ post.
Proof.
  induction h as [|b h IH].
  - simpl. rewrite orb_false_r, starts_with_spec. split.
    + intros [post H]. now exists "", post.
    + intros (pre & post & H). destruct pre; simpl in H; [now exists post|discriminate].
  - cbn [contains]. rewrite orb_true_iff, starts_with_spec, IH. split.
    + intros [[post H] | (pre & post & H)].
      * now exists "", post.
      * exists (String b pre), post. simpl. now rewrite H.
    + intros (pre & post & H). destruct pre as [|c pre]; simpl in H.
      * left. now exists post.
      * right. injection H as _ H. now exists pre, post.
Qed.

(** The program's test [w in text.lower()] is exactly the case-insensitive
    occurrence of [w] somewhere in [text]. *)
Lemma contains_lower_spec (w u : string) :
  contains w (lower u) = true <-> occurs_ignoring_case w u.
Proof.
  rewrite contains_spec. unfold occurs_ignoring_case. split.
  - intros (pre & post & H).
    destruct (lower_split _ _ _ H) as (u1 & u23 & -> & H1 & H23).
    destruct (lower_split _ _ _ H23) as (u2 & u3 & -> & H2 & H3).
    now exists u1, u2, u3.
  - intros (pre & mid & post & -> & Hm).
    exists (lower pre), (lower post). now rewrite !lower_app, Hm.
Qed.

Lemma truthy_iff (s : string) : truthy s = true <-> s <> "".
Proof. destruct s; simpl; split; congruence. Qed.

Lemma append_assoc (a b c : string) : (a ++ b) ++ c = a ++ (b ++ c).
Proof.
  induction a as [|x a IH]; simpl; [reflexivity|]. now rewrite IH.
Qed.

Lemma append_empty_r (a : string) : a ++ "" = a.
Proof.
  induction a as [|x a IH]; simpl; [reflexivity|]. now rewrite IH.
Qed.

End TextFacts.

(* ===================================================================== *)
(** ** How one state follows another                                      *)
(* ===================================================================== *)

Section Frames.

Variable W : World.

Lemma after_refl P (s : State W) : after P s s.
Proof.
  repeat split; auto. exists []. split; [now rewrite app_nil_r | constructor].
Qed.

Lemma after_trans P (s1 s2 s3 : State W) : after P s1 s2 -> after P s2 s3 -> after P s1 s3.
Proof.
  intros (Ha & Hb & ea & Hc & Hd) (Ha' & Hb' & eb & Hc' & Hd').
  repeat split; [tauto | lia |].
  exists (ea ++ eb)%list. split.
  - now rewrite Hc', Hc, app_assoc.
  - apply Forall_app; now split.
Qed.

Lemma after_weaken (P Q : @effect W -> Prop) (s s' : State W) :
  (forall e, P e -> Q e) -> after P s s' -> after Q s s'.
Proof.
  intros HPQ (Ha & Hb & es & Hc & Hd). repeat split; auto.
  exists es. split; [assumption|]. eapply Forall_impl; eauto.
Qed.

Lemma after_emit P es (s : State W) : Forall P es -> after P s (emit es s).
Proof.
  intros H. repeat split; simpl; auto. now exists es.
Qed.

Lemma after_set_stop P (s : State W) : after P s (set_stop_flag s).
Proof.
  repeat split; simpl; auto. exists []. split; [now rewrite app_nil_r | constructor].
Qed.

Lemma after_set_tts P b (s : State W) : after P s (set_tts_active b s).
Proof.
  repeat split; simpl; auto. exists []. split; [now rewrite app_nil_r | constructor].
Qed.

(** Sequencing: if [c] ends after [s] and every continuation ends after
    where [c] left off, so does the whole. *)
Lemma ends_after_bind {A B : Type} P (c : M W A) (k : A -> M W B) s :
  ends_after P s (c s) ->
  (forall a s1, c s = Ret a s1 -> ends_after P s1 (k a s1)) ->
  ends_after P s (bind c k s).
Proof.
  unfold bind, ends_after. intros Hc Hk.
  destruct (c s) as [a s1| e s1 | s1 |] eqn:E; simpl in *; auto.
  specialize (Hk a s1 eq_refl).
  destruct (final (k a s1)) as [s2|]; auto.
  eapply after_trans; eauto.
Qed.

Lemma ends_after_weaken {A : Type} (P Q : @effect W -> Prop) s (r : Res W A) :
  (forall e, P e -> Q e) -> ends_after P s r -> ends_after Q s r.
Proof.
  unfold ends_after. intros HPQ H. destruct (final r); auto.
  eapply after_weaken; eauto.
Qed.

Lemma ends_after_from {A : Type} P (s s1 : State W) (r : Res W A) :
  after P s s1 -> ends_after P s1 r -> ends_after P s r.
Proof.
  unfold ends_after. intros Ha H. destruct (final r); auto.
  eapply after_trans; eauto.
Qed.

End Frames.


(* ===================================================================== *)
(** ** Listening                                                          *)
(* ===================================================================== *)

Section Listening.

Variable W : World.

Lemma q_get_from_inl pending (s : State W) data s1 :
  q_get_from pending s = inl (data, s1) ->
  tts_active s1 = tts_active s /\ trace s1 = trace s /\
  (List.length (q s1) < List.length pending)%nat /\
  (stop_flag s = true -> stop_flag s1 = true).
Proof.
  revert s. induction pending as [|[d|] rest IH]; intros s H; simpl in H.
  - discriminate.
  - injection H as <- <-. simpl. repeat split; auto.
  - destruct (IH _ H) as (Ht & Hl & Hq & Hs). simpl in *.
    repeat split; auto.
Qed.

Lemma q_get_from_inr pending (s : State W) s1 :
  q_get_from pending s = inr s1 ->
  tts_active s1 = tts_active s /\ trace s1 = trace s /\ q s1 = [] /\
  (stop_flag s = true -> stop_flag s1 = true).
Proof.
  revert s. induction pending as [|[d|] rest IH]; intros s H; simpl in H.
  - injection H as <-. simpl. repeat split; auto.
  - discriminate.
  - destruct (IH _ H) as (Ht & Hl & Hq & Hs). simpl in *.
    repeat split; auto.
Qed.

Lemma q_get_inl_after (s : State W) data s1 :
  q_get s = inl (data, s1) ->
  after is_print s s1 /\ tts_active s1 = tts_active s /\
  (List.length (q s1) < List.length (q s))%nat.
Proof.
  intros H. destruct (q_get_from_inl _ _ _ _ H) as (Ht & Hl & Hq & Hs).
  repeat split; auto; [lia|].
  exists []. rewrite app_nil_r. split; [assumption | constructor].
Qed.

Lemma q_get_inr_after (s : State W) s1 :
  q_get s = inr s1 -> after is_print s s1 /\ tts_active s1 = tts_active s.
Proof.
  intros H. destruct (q_get_from_inr _ _ _ H) as (Ht & Hl & Hq & Hs).
  repeat split; auto; [rewrite Hq; simpl; lia|].
  exists []. rewrite app_nil_r. split; [assumption | constructor].
Qed.

Lemma vosk_listen_loop_stopped fuel rec (s : State W) :
  stop_flag s = true -> vosk_listen_loop W (S fuel) rec s = Ret None s.
Proof. intros H. simpl. now rewrite H. Qed.

Lemma listened_step fuel (s s1 : State W) r :
  after is_print s s1 -> tts_active s1 = tts_active s ->
  (List.length (q s1) < List.length (q s))%nat ->
  listened fuel s1 r -> listened (S fuel) s r.
Proof.
  intros Ha Ht Hq. destruct r as [[t|] s' | e s' | s' |]; simpl.
  - intros (Hn & Hl & Ht' & Ha').
    refine (conj Hn (conj _ (conj _ (after_trans _ _ _ _ _ Ha Ha')))); [lia | congruence].
  - intros (Hs & Ht' & Ha').
    refine (conj Hs (conj _ (after_trans _ _ _ _ _ Ha Ha'))); congruence.
  - intros (He & Ht' & Ha').
    refine (conj He (conj _ (after_trans _ _ _ _ _ Ha Ha'))); congruence.
  - intros (Ht' & Ha').
    refine (conj _ (after_trans _ _ _ _ _ Ha Ha')); congruence.
  - lia.
Qed.

Lemma vosk_listen_loop_listened fuel rec (s : State W) :
  listened fuel s (vosk_listen_loop W fuel rec s).
Proof.
  revert rec s. induction fuel as [|fuel IH]; intros rec s; simpl.
  - lia.
  - destruct (stop_flag s) eqn:Hstop.
    + simpl. exact (conj Hstop (conj eq_refl (after_refl _ _ _))).
    + destruct (q_get s) as [[data s1]|s1] eqn:Hq.
      * destruct (q_get_inl_after _ _ _ Hq) as (Ha & Ht & Hl).
        destruct (AcceptWaveform W rec data) as [rec' [result_text|]].
        -- destruct (Text.truthy result_text) eqn:Htr.
           ++ cbn. refine (conj _ (conj Hl (conj Ht _))).
              ** now apply TextFacts.truthy_iff.
              ** eapply after_trans; [exact Ha|]. apply after_emit.
                 repeat constructor.
           ++ eapply listened_step; eauto.
        -- eapply listened_step; eauto.
      * destruct (q_get_inr_after _ _ Hq) as (Ha & Ht). simpl. now split.
Qed.

Lemma vosk_listen_listened fuel (s : State W) :
  listened fuel s (vosk_listen W fuel s).
Proof.
  unfold vosk_listen. destruct (vosk_setup W) as [e|] eqn:E.
  - simpl. exact (conj E (conj eq_refl (after_refl _ _ _))).
  - apply vosk_listen_loop_listened.
Qed.

End Listening.

(* ===================================================================== *)
(** ** Command capture                                                    *)
(* ===================================================================== *)

Section Capture.

Variable W : World.

Lemma captured_step fuel (s s1 : State W) r :
  after is_print s s1 -> tts_active s1 = tts_active s ->
  (List.length (q s1) < List.length (q s))%nat ->
  captured fuel s1 r -> captured (S fuel) s r.
Proof.
  intros Ha Ht Hq. destruct r as [[t|] s' | e s' | s' |]; simpl.
  - intros (Hn & Hst & Ht1 & Ht' & Hl & Ha').
    refine (conj Hn (conj Hst (conj _ (conj Ht' (conj _ (after_trans _ _ _ _ _ Ha Ha'))))));
      [congruence | lia].
  - intros (Hs & Ht' & Ha').
    refine (conj Hs (conj _ (after_trans _ _ _ _ _ Ha Ha'))); congruence.
  - intros (He & Ht' & Ha').
    refine (conj He (conj _ (after_trans _ _ _ _ _ Ha Ha'))); congruence.
  - intros (Ht' & Ha').
    refine (conj _ (after_trans _ _ _ _ _ Ha Ha')); congruence.
  - lia.
Qed.

Lemma listen_for_command_stopped fuel (s : State W) :
  stop_flag s = true -> listen_for_command W (S fuel) s = Ret None s.
Proof. intros H. simpl. now rewrite H. Qed.

Lemma listen_for_command_captured fuel (s : State W) :
  captured fuel s (listen_for_command W fuel s).
Proof.
  revert s. induction fuel as [|fuel IH]; intros s.
  - simpl. lia.
  - cbn [listen_for_command]. destruct (stop_flag s) eqn:Hstop.
    + simpl. exact (conj Hstop (conj eq_refl (after_refl _ _ _))).
    + unfold bind at 1.
      pose proof (vosk_listen_listened W fuel s) as HL.
      destruct (vosk_listen W fuel s) as [[t|] s1 | e s1 | s1 |]; simpl in HL.
      * destruct HL as (Hn & Hl & Ht & Ha).
        destruct (Text.truthy t) eqn:Htr.
        -- destruct (Text.contains "stop" (Text.lower t)) eqn:Hc.
           ++ cbn. refine (conj eq_refl (conj Ht _)).
              eapply after_trans; [exact Ha|].
              eapply after_trans; [apply after_set_stop|].
              apply after_emit. repeat constructor.
           ++ destruct (tts_active s1) eqn:Htts; simpl.
              ** unfold bind, print, do.
                 eapply captured_step; [| | |apply IH].
                 --- eapply after_trans; [exact Ha|]. apply after_emit.
                     repeat constructor.
                 --- simpl. congruence.
                 --- simpl. exact Hl.
              ** refine (conj Hn (conj Hc (conj _ (conj Htts (conj Hl Ha))))).
                 congruence.
        -- eapply captured_step; eauto.
      * destruct HL as (Hs & Ht & Ha).
        destruct fuel as [|fuel].
        -- simpl. lia.
        -- rewrite listen_for_command_stopped by assumption.
           exact (conj Hs (conj Ht Ha)).
      * exact HL.
      * exact HL.
      * simpl. lia.
Qed.

(** While [tts_active] is set, command capture hands back no command. *)
Lemma listen_for_command_busy fuel (s : State W) c s' :
  tts_active s = true -> listen_for_command W fuel s <> Ret (Some c) s'.
Proof.
  intros Hbusy Heq.
  pose proof (listen_for_command_captured fuel s) as H.
  rewrite Heq in H. simpl in H. destruct H as (_ & _ & Hfree & _). congruence.
Qed.

End Capture.

(* ===================================================================== *)
(** ** Speaking and dispatch                                              *)
(* ===================================================================== *)

Section Dispatch.

Variable W : World.

Lemma is_print_well_dispatched (e : @effect W) : is_print e -> well_dispatched e.
Proof. destruct e; simpl; tauto. Qed.

Lemma spoken_app (a b : list (@effect W)) : spoken (a ++ b)%list = (spoken a ++ spoken b)%list.
Proof.
  induction a as [|[] a IH]; simpl; auto. now rewrite IH.
Qed.

Lemma speak_returns text (s : State W) :
  synthesize W text = None ->
  speak W text s =
  Ret tt (set_tts_active false (emit (speak_effects text) (set_tts_active true s))).
Proof. intros H. unfold speak. now rewrite H. Qed.

Lemma speak_raises text e (s : State W) :
  synthesize W text = Some e ->
  speak W text s = Raise e (emit (speak_effects text) (set_tts_active true s)).
Proof. intros H. unfold speak. now rewrite H. Qed.

Lemma speak_ends_after text (s : State W) :
  ends_after well_dispatched s (speak W text s).
Proof.
  unfold speak, ends_after.
  assert (Ha : after well_dispatched s
            (emit (speak_effects text) (set_tts_active true s))).
  { eapply after_trans; [apply after_set_tts|]. apply after_emit.
    repeat constructor. }
  destruct (synthesize W text); simpl; [exact Ha|].
  eapply after_trans; [exact Ha | apply after_set_tts].
Qed.

(** *** The pool *)

Lemma interleave_In sched (a b : list (@effect W)) x :
  In x (interleave sched a b) <-> In x a \/ In x b.
Proof.
  revert a b. induction sched as [|[|] sched IH]; intros a b; simpl.
  - apply in_app_iff.
  - destruct a as [|y a]; simpl; [tauto|]. rewrite IH. tauto.
  - destruct b as [|y b]; simpl; [tauto|]. rewrite IH. simpl. tauto.
Qed.

Lemma interleave_length sched (a b : list (@effect W)) :
  List.length (interleave sched a b) = (List.length a + List.length b)%nat.
Proof.
  revert a b. induction sched as [|[|] sched IH]; intros a b; simpl.
  - apply length_app.
  - destruct a as [|y a]; simpl; [reflexivity|]. now rewrite IH.
  - destruct b as [|y b]; simpl; [lia|]. rewrite IH. simpl. lia.
Qed.

Lemma spoken_none (es : list (@effect W)) :
  (forall v, ~ In (EngineSay v) es) -> spoken es = [].
Proof.
  induction es as [|e es IH]; intros H; simpl; [reflexivity|].
  assert (spoken es = []) as Hes by (apply IH; intros v Hv; apply (H v); now right).
  destruct e; auto. exfalso. apply (H v). now left.
Qed.

(** What the two workers do: one request each, for the prompt given, with
    a timing line after it when the call went through. *)
Lemma ollama_effects_shape prompt :
  exists tail, fst (get_ollama_response W prompt) = Post Local (ollama_data prompt) :: tail /\
               (tail = [] \/ exists d detail, tail = [PrintTime Local d detail]).
Proof.
  unfold get_ollama_response.
  destruct (measure_total_time W _ _ _ _) as [[response total_time]|e]; simpl.
  - destruct (process_ollama_response W response); simpl; eauto 6.
  - eauto.
Qed.

Lemma openai_effects_shape prompt :
  exists tail, fst (get_openai_response W prompt) = Post Cloud (openai_data prompt) :: tail /\
               (tail = [] \/ exists d detail, tail = [PrintTime Cloud d detail]).
Proof.
  unfold get_openai_response.
  destruct (measure_total_time W _ _ _ _) as [[response total_time]|e]; simpl.
  - destruct (process_openai_response response); simpl; eauto 6.
  - eauto.
Qed.

Lemma pool_effects_In text x :
  In x (pool_effects W text) ->
  x = Post Local (ollama_data text) \/ x = Post Cloud (openai_data text) \/
  exists b d detail, x = PrintTime b d detail.
Proof.
  unfold pool_effects. rewrite interleave_In.
  destruct (ollama_effects_shape text) as (t1 & -> & H1).
  destruct (openai_effects_shape text) as (t2 & -> & H2).
  simpl. intros [[<-|Hx]|[<-|Hx]]; auto.
  - destruct H1 as [->|(d & detail & ->)]; simpl in Hx; [tauto|].
    destruct Hx as [<-|[]]. eauto 6.
  - destruct H2 as [->|(d & detail & ->)]; simpl in Hx; [tauto|].
    destruct Hx as [<-|[]]. eauto 6.
Qed.

Lemma pool_effects_silent text : spoken (pool_effects W text) = [].
Proof.
  apply spoken_none. intros v Hv.
  destruct (pool_effects_In _ _ Hv) as [H|[H|(b & d & detail & H)]]; discriminate.
Qed.

Lemma pool_effects_well_dispatched text :
  text <> "" -> Forall well_dispatched (pool_effects W text).
Proof.
  intros Hne. apply Forall_forall. intros x Hx.
  destruct (pool_effects_In _ _ Hx) as [->|[->|(b & d & detail & ->)]]; simpl; auto.
  - now exists text.
  - now exists text.
Qed.

(** [respond_to_text], by what the two futures hold. *)
Lemma respond_to_text_unfold text (s : State W) :
  respond_to_text W text s =
  let s1 := emit (pool_effects W text) s in
  match snd (get_ollama_response W text), snd (get_openai_response W text) with
  | Err e, _ => Raise e s1
  | Ok _, Err e => Raise e s1
  | Ok ollama_response, Ok openai_response =>
      (speak W (VStr ollama_response) ;; speak W openai_response)
        (emit (response_prints ollama_response openai_response) s1)
  end.
Proof.
  unfold respond_to_text, pool_effects.
  destruct (get_ollama_response W text) as [e1 [o|e]];
  destruct (get_openai_response W text) as [e2 [c|e']]; reflexivity.
Qed.

Lemma respond_to_text_ends_after text (s : State W) :
  text <> "" -> ends_after well_dispatched s (respond_to_text W text s).
Proof.
  intros Hne. rewrite respond_to_text_unfold. cbv zeta.
  pose proof (after_emit W well_dispatched _ s (pool_effects_well_dispatched _ Hne)) as Ha.
  destruct (snd (get_ollama_response W text)) as [o|e]; [|exact Ha].
  destruct (snd (get_openai_response W text)) as [c|e]; [|exact Ha].
  set (s2 := emit (response_prints o c) _).
  assert (Ha2 : after well_dispatched s s2).
  { eapply after_trans; [exact Ha|]. apply after_emit. repeat constructor. }
  assert (H : ends_after well_dispatched s2 ((speak W (VStr o) ;; speak W c) s2)).
  { apply ends_after_bind; [apply speak_ends_after|].
    intros. apply speak_ends_after. }
  unfold ends_after in *. destruct (final _); auto.
  eapply after_trans; eauto.
Qed.

End Dispatch.


(* ===================================================================== *)
(** ** Interpreting an utterance; the top-level loop                      *)
(* ===================================================================== *)

Section Control.

Variable W : World.

Lemma handle_stop fuel text (s : State W) :
  Text.contains "stop" (Text.lower text) = true ->
  handle_recognized_text W fuel text s =
  Ret tt (emit [Print (VStr "Stopping TTS and resetting...")]
               (emit [EngineStop] (set_stop_flag s))).
Proof. intros H. unfold handle_recognized_text. now rewrite H. Qed.

Lemma handle_wake fuel text (s : State W) :
  Text.contains "stop" (Text.lower text) = false ->
  Text.contains WAKE_WORD (Text.lower text) = true ->
  handle_recognized_text W fuel text s =
  (command <- listen_for_command W fuel ;;
   match command with
   | Some c => if Text.truthy c then respond_to_text W c else ret tt
   | None => ret tt
   end) (emit [Print (VStr "Wake word detected, listening for command...")] s).
Proof. intros H1 H2. unfold handle_recognized_text. now rewrite H1, H2. Qed.

Lemma handle_other fuel text (s : State W) :
  Text.contains "stop" (Text.lower text) = false ->
  Text.contains WAKE_WORD (Text.lower text) = false ->
  handle_recognized_text W fuel text s = Ret tt s.
Proof. intros H1 H2. unfold handle_recognized_text. now rewrite H1, H2. Qed.

Lemma speak_not_out_of_fuel text (s : State W) : speak W text s <> OutOfFuel.
Proof. unfold speak. destruct (synthesize W text); discriminate. Qed.

Lemma respond_to_text_not_out_of_fuel text (s : State W) :
  respond_to_text W text s <> OutOfFuel.
Proof.
  rewrite respond_to_text_unfold. cbv zeta.
  destruct (snd (get_ollama_response W text)); [|discriminate].
  destruct (snd (get_openai_response W text)); [|discriminate].
  unfold bind. set (s2 := emit (response_prints _ _) _).
  destruct (speak W (VStr a) s2) eqn:E; try discriminate.
  - apply speak_not_out_of_fuel.
  - now apply speak_not_out_of_fuel in E.
Qed.

Lemma handle_recognized_text_ran fuel text (s : State W) :
  ran fuel s (handle_recognized_text W fuel text s).
Proof.
  destruct (Text.contains "stop" (Text.lower text)) eqn:Hstop.
  - rewrite handle_stop by assumption. split; [|discriminate].
    unfold ends_after; simpl.
    eapply after_trans; [apply after_set_stop|].
    eapply after_trans; apply after_emit; repeat constructor.
  - destruct (Text.contains WAKE_WORD (Text.lower text)) eqn:Hwake.
    + rewrite handle_wake by assumption.
      set (s0 := emit _ s).
      assert (Ha0 : after well_dispatched s s0)
        by (apply after_emit; repeat constructor).
      unfold bind.
      pose proof (listen_for_command_captured W fuel s0) as HC.
      destruct (listen_for_command W fuel s0) as [[c|] s1 | e s1 | s1 |]; simpl in HC.
      * destruct HC as (Hn & _ & _ & _ & _ & Ha).
        apply (after_weaken _ _ _ _ _ (@is_print_well_dispatched W)) in Ha.
        rewrite (proj2 (TextFacts.truthy_iff c) Hn). split.
        -- eapply ends_after_from; [eapply after_trans; eauto|].
           now apply respond_to_text_ends_after.
        -- intros H. now apply respond_to_text_not_out_of_fuel in H.
      * destruct HC as (_ & _ & Ha).
        apply (after_weaken _ _ _ _ _ (@is_print_well_dispatched W)) in Ha.
        split; [|discriminate]. unfold ends_after; simpl.
        eapply after_trans; eauto.
      * destruct HC as (_ & _ & Ha).
        apply (after_weaken _ _ _ _ _ (@is_print_well_dispatched W)) in Ha.
        split; [|discriminate]. unfold ends_after; simpl.
        eapply after_trans; eauto.
      * destruct HC as (_ & Ha).
        apply (after_weaken _ _ _ _ _ (@is_print_well_dispatched W)) in Ha.
        split; [|discriminate]. unfold ends_after; simpl.
        eapply after_trans; eauto.
      * split; [exact I|]. intros _. exact HC.
    + rewrite handle_other by assumption. split; [|discriminate].
      apply after_refl.
Qed.

Lemma chat_loop_stopped fuel (s : State W) :
  stop_flag s = true -> chat_loop W (S fuel) s = Ret tt s.
Proof. intros H. simpl. now rewrite H. Qed.

Lemma ran_step fuel (s s1 : State W) r :
  after well_dispatched s s1 ->
  (List.length (q s1) < List.length (q s))%nat ->
  ran fuel s1 r -> ran (S fuel) s r.
Proof.
  intros Ha Hl [He Hf]. split.
  - eapply ends_after_from; eauto.
  - intros H. specialize (Hf H). lia.
Qed.

Lemma chat_loop_ran fuel (s : State W) : ran fuel s (chat_loop W fuel s).
Proof.
  revert s. induction fuel as [|fuel IH]; intros s.
  - simpl. split; [exact I | lia].
  - cbn [chat_loop]. destruct (stop_flag s) eqn:Hstop.
    + split; [apply after_refl | discriminate].
    + unfold bind at 1. unfold bind at 1.
      pose proof (vosk_listen_listened W fuel s) as HL.
      destruct (vosk_listen W fuel s) as [[t|] s1 | e s1 | s1 |]; simpl in HL.
      * destruct HL as (Hn & Hl & _ & Ha).
        apply (after_weaken _ _ _ _ _ (@is_print_well_dispatched W)) in Ha.
        rewrite (proj2 (TextFacts.truthy_iff t) Hn).
        destruct (handle_recognized_text_ran fuel t s1) as [He Hf].
        destruct (handle_recognized_text W fuel t s1) as [[] s2 | e s2 | s2 |];
          unfold ends_after in He; simpl in He.
        -- eapply ran_step; [eapply after_trans; [exact Ha | exact He] | | apply IH].
           destruct He as (_ & Hq & _). lia.
        -- split; [|discriminate]. unfold ends_after; simpl.
           eapply after_trans; eauto.
        -- split; [|discriminate]. unfold ends_after; simpl.
           eapply after_trans; eauto.
        -- split; [exact I|]. intros _. specialize (Hf eq_refl). lia.
      * destruct HL as (Hs & _ & Ha).
        apply (after_weaken _ _ _ _ _ (@is_print_well_dispatched W)) in Ha.
        unfold ret. destruct fuel as [|fuel].
        -- simpl. split; [exact I | lia].
        -- rewrite chat_loop_stopped by assumption. split; [exact Ha | discriminate].
      * destruct HL as (_ & _ & Ha).
        apply (after_weaken _ _ _ _ _ (@is_print_well_dispatched W)) in Ha.
        split; [exact Ha | discriminate].
      * destruct HL as (_ & Ha).
        apply (after_weaken _ _ _ _ _ (@is_print_well_dispatched W)) in Ha.
        split; [exact Ha | discriminate].
      * split; [exact I|]. intros _. lia.
Qed.

(** The step budget is only a device of the model: a budget larger than
    the queue by two never runs out, so the loop's outcome is then the
    program's. *)
Lemma chat_loop_enough_fuel fuel (s : State W) :
  (List.length (q s) + 2 <= fuel)%nat -> chat_loop W fuel s <> OutOfFuel.
Proof.
  intros Hf H. destruct (chat_loop_ran fuel s) as [_ Hb]. specialize (Hb H). lia.
Qed.

End Control.

(* ===================================================================== *)
(** ** The backends' answers                                              *)
(* ===================================================================== *)

Section Answers.

Variable W : World.

Lemma process_ollama_lines_join lines pieces acc :
  Forall2 (line_fragment W) lines pieces ->
  process_ollama_lines W lines acc = Ok (acc ++ join pieces).
Proof.
  intros H. revert acc.
  induction H as [|line piece lines pieces Hline _ IH]; intros acc; simpl.
  - now rewrite TextFacts.append_empty_r.
  - destruct Hline as [|line d Hne Hload Hget|line d piece Hne Hload Hget].
    + simpl. apply IH.
    + rewrite (proj2 (TextFacts.truthy_iff line) Hne), Hload. simpl.
      rewrite Hget. rewrite IH. now rewrite TextFacts.append_empty_r.
    + rewrite (proj2 (TextFacts.truthy_iff line) Hne), Hload. simpl.
      rewrite Hget. rewrite IH. now rewrite TextFacts.append_assoc.
Qed.

Lemma process_openai_response_error response :
  status_code response <> 200%Z ->
  process_openai_response response = Ok (VStr (error_text response)).
Proof.
  intros H. unfold process_openai_response.
  destruct (Z.eqb_spec (status_code response) 200); [contradiction | reflexivity].
Qed.

Lemma process_openai_response_content response body content :
  status_code response = 200%Z -> json response = Ok body ->
  choices0_message_content body content ->
  process_openai_response response = Ok content.
Proof.
  intros Hs Hj (d & first & others & m & -> & Hc & Hm & Hcontent).
  unfold process_openai_response. rewrite Hs, Hj. simpl.
  rewrite Hc. simpl. rewrite Hm. simpl. now rewrite Hcontent.
Qed.

(** The cloud worker hands on what [process_openai_response] made of the
    reply. *)
Lemma get_openai_response_processed prompt response result_ :
  requests_post W openai_url openai_headers (openai_data prompt) = Ok response ->
  process_openai_response response = Ok result_ ->
  snd (get_openai_response W prompt) = Ok result_.
Proof.
  intros Hpost Hproc. unfold get_openai_response, measure_total_time.
  rewrite Hpost. simpl. now rewrite Hproc.
Qed.

(** The cloud worker turns a failed request into a text... *)
Lemma get_openai_response_request_failed prompt msg :
  requests_post W openai_url openai_headers (openai_data prompt)
    = Err (RequestException msg) ->
  snd (get_openai_response W prompt) = Ok (VStr ("OpenAI API Request Failed: " ++ msg)).
Proof.
  intros Hpost. unfold get_openai_response, measure_total_time.
  now rewrite Hpost.
Qed.

(** ...the local worker lets it escape. *)
Lemma get_ollama_response_request_failed prompt e :
  requests_post W ollama_url ollama_headers (ollama_data prompt) = Err e ->
  snd (get_ollama_response W prompt) = Err e.
Proof.
  intros Hpost. unfold get_ollama_response, measure_total_time.
  now rewrite Hpost.
Qed.

Lemma respond_to_text_local_error text e (s : State W) :
  snd (get_ollama_response W text) = Err e ->
  respond_to_text W text s = Raise e (emit (pool_effects W text) s).
Proof. intros H. rewrite respond_to_text_unfold. cbv zeta. now rewrite H. Qed.

Lemma respond_to_text_both text o c (s : State W) :
  snd (get_ollama_response W text) = Ok o ->
  snd (get_openai_response W text) = Ok c ->
  respond_to_text W text s =
  (speak W (VStr o) ;; speak W c)
    (emit (response_prints o c) (emit (pool_effects W text) s)).
Proof.
  intros H1 H2. rewrite respond_to_text_unfold. cbv zeta. now rewrite H1, H2.
Qed.

End Answers.


(* ===================================================================== *)
(** ** The claims                                                         *)
(* ===================================================================== *)

(** C1.  The claim: dispatch always hands back both results, a failed
    backend call becoming a text instead of an exception.  The cloud side
    does that; the local side does not.  With the local backend down and
    the cloud backend answering, [respond_to_text] raises the local
    worker's exception: the cloud worker's answer is dropped and nothing is
    spoken. *)
Theorem C1_local_failure_escapes_dispatch :
  let W := Demo.local_down in
  let s := Demo.start W [] in
  snd (get_ollama_response W "what is two plus two")
    = Err (RequestException "Connection refused") /\
  snd (get_openai_response W "what is two plus two")
    = Ok (VStr "Two plus two is four.") /\
  respond_to_text W "what is two plus two" s
    = Raise (RequestException "Connection refused")
            (emit (pool_effects W "what is two plus two") s) /\
  spoken (pool_effects W "what is two plus two") = [].
Proof. repeat split. Qed.

(** C2.  The claim: [tts_active] is clear again whenever [speak] is left,
    also when the engine raises.  It is cleared by the last statement of
    [speak] only: when the engine raises, the exception leaves [speak] with
    the flag still set. *)
Theorem C2_flag_left_set_when_engine_raises :
  let W := Demo.engine_broken in
  let s := Demo.start W [] in
  tts_active s = false /\
  speak W (VStr "Four.") s
    = Raise (OtherError "run loop already started")
            (emit (speak_effects (VStr "Four.")) (set_tts_active true s)) /\
  tts_active (emit (speak_effects (VStr "Four.")) (set_tts_active true s)) = true.
Proof. repeat split. Qed.

(** C7.  For a reply of the local backend whose lines are empty or JSON
    objects, with a text under ["response"] or no such entry, the answer
    [process_ollama_response] extracts is the in-order concatenation of the
    lines' fragments. *)
Theorem C7_local_answer_is_concatenation (W : World) (response : Response)
    (pieces : list string) :
  Forall2 (line_fragment W) (iter_lines response) pieces ->
  process_ollama_response W response = Ok (join pieces).
Proof.
  intros H. unfold process_ollama_response.
  now rewrite (process_ollama_lines_join W _ _ "" H).
Qed.

(** The lines [{"response":"Four"}] and [{"response":"."}] give "Four.". *)
Lemma C7_four_witness :
  Forall2 (line_fragment Demo.healthy)
          [Demo.response_line "Four"; Demo.response_line "."] ["Four"; "."] /\
  process_ollama_response Demo.healthy Demo.four_response = Ok "Four.".
Proof.
  assert (H : Forall2 (line_fragment Demo.healthy)
                (iter_lines Demo.four_response) ["Four"; "."]).
  { repeat constructor.
    - eapply object_with_response; [discriminate | reflexivity | reflexivity].
    - eapply object_with_response; [discriminate | reflexivity | reflexivity]. }
  split; [exact H|].
  exact (C7_local_answer_is_concatenation Demo.healthy Demo.four_response _ H).
Defined.

(** C8.  A reply of the cloud backend with status [S] other than 200 and
    body [B] becomes the text "Error: S - B", and that text is the argument
    of the second [speak] whenever the local side delivered an answer; a
    reply with status 200 becomes its [choices[0].message.content]. *)
Theorem C8_cloud_reply (W : World) (response : Response) :
  (status_code response <> 200%Z ->
   process_openai_response response = Ok (VStr (error_text response)) /\
   forall prompt o (s : State W),
     requests_post W openai_url openai_headers (openai_data prompt) = Ok response ->
     snd (get_ollama_response W prompt) = Ok o ->
     respond_to_text W prompt s =
     (speak W (VStr o) ;; speak W (VStr (error_text response)))
       (emit (response_prints o (VStr (error_text response)))
             (emit (pool_effects W prompt) s))) /\
  (forall body content,
     status_code response = 200%Z -> json response = Ok body ->
     choices0_message_content body content ->
     process_openai_response response = Ok content).
Proof.
  split.
  - intros Hs. pose proof (process_openai_response_error response Hs) as Hp.
    split; [exact Hp|]. intros prompt o s Hpost Ho.
    apply respond_to_text_both; [exact Ho|].
    eapply get_openai_response_processed; eauto.
  - intros body content. apply process_openai_response_content.
Qed.

(** Status 500 with body "server error" is spoken as
    "Error: 500 - server error", after the local answer. *)
Lemma C8_server_error_witness :
  status_code Demo.server_error <> 200%Z /\
  error_text Demo.server_error = "Error: 500 - server error" /\
  process_openai_response Demo.server_error = Ok (VStr "Error: 500 - server error") /\
  match respond_to_text Demo.cloud_500 "what is two plus two"
                        (Demo.start Demo.cloud_500 []) with
  | Ret _ s' => spoken (trace s') = [VStr "Four."; VStr "Error: 500 - server error"]
  | _ => False
  end.
Proof.
  assert (Hs : status_code Demo.server_error <> 200%Z) by discriminate.
  destruct (C8_cloud_reply Demo.cloud_500 Demo.server_error) as [Herr _].
  destruct (Herr Hs) as [Hp Hr].
  split; [exact Hs|]. split; [reflexivity|]. split; [exact Hp|].
  rewrite (Hr "what is two plus two" "Four." _ eq_refl eq_refl).
  reflexivity.
Defined.

Section StopWord.

Variable W : World.

Lemma occurs_stop_contains (U : string) :
  Text.occurs_ignoring_case "stop" U -> Text.contains "stop" (Text.lower U) = true.
Proof. apply TextFacts.contains_lower_spec. Qed.

Lemma not_occurs_contains (w U : string) :
  ~ Text.occurs_ignoring_case w U -> Text.contains w (Text.lower U) = false.
Proof.
  intros H. destruct (Text.contains w (Text.lower U)) eqn:E; [|reflexivity].
  now apply TextFacts.contains_lower_spec in E.
Qed.

Lemma occurs_stop_truthy (U : string) :
  Text.occurs_ignoring_case "stop" U -> Text.truthy U = true.
Proof.
  intros H. apply occurs_stop_contains in H. destruct U; [discriminate | reflexivity].
Qed.

Lemma speak_keeps_stop_flag text (s s' : State W) :
  final (speak W text s) = Some s' -> stop_flag s' = stop_flag s.
Proof.
  unfold speak. destruct (synthesize W text); simpl; intros H;
    injection H as <-; reflexivity.
Qed.

Lemma respond_to_text_keeps_stop_flag text (s s' : State W) :
  final (respond_to_text W text s) = Some s' -> stop_flag s' = stop_flag s.
Proof.
  rewrite respond_to_text_unfold. cbv zeta.
  destruct (snd (get_ollama_response W text)) as [o|e];
    [|simpl; intros H; injection H as <-; reflexivity].
  destruct (snd (get_openai_response W text)) as [c|e];
    [|simpl; intros H; injection H as <-; reflexivity].
  unfold bind.
  remember (emit (response_prints o c) (emit (pool_effects W text) s)) as s2 eqn:Hs2.
  assert (H2 : stop_flag s2 = stop_flag s) by now subst s2.
  pose proof (speak_keeps_stop_flag (VStr o) s2) as H3.
  destruct (speak W (VStr o) s2) as [[] s3|e s3|s3|]; simpl in H3; intros H.
  - apply speak_keeps_stop_flag in H. rewrite H, (H3 s3 eq_refl). exact H2.
  - injection H as <-. now rewrite (H3 s3 eq_refl).
  - injection H as <-. now rewrite (H3 s3 eq_refl).
  - discriminate.
Qed.

Lemma listened_ends_after fuel (s : State W) r :
  listened fuel s r -> ends_after is_print s r.
Proof.
  unfold ends_after. destruct r as [[t|] s1|e s1|s1|]; simpl; try tauto.
Qed.

Lemma captured_ends_after fuel (s : State W) r :
  captured fuel s r -> ends_after is_print s r.
Proof.
  unfold ends_after. destruct r as [[t|] s1|e s1|s1|]; simpl; try tauto.
Qed.

(** No call of the program clears [stop_flag]. *)
Lemma stop_flag_sticky fuel text v (s s' : State W) :
  stop_flag s = true ->
  final (continuous_chat_with_vosk W fuel s) = Some s' \/
  final (chat_loop W fuel s) = Some s' \/
  final (handle_recognized_text W fuel text s) = Some s' \/
  final (listen_for_command W fuel s) = Some s' \/
  final (vosk_listen W fuel s) = Some s' \/
  final (respond_to_text W text s) = Some s' \/
  final (speak W v s) = Some s' ->
  stop_flag s' = true.
Proof.
  intros Hs [H|[H|[H|[H|[H|[H|H]]]]]].
  - unfold continuous_chat_with_vosk, bind, print, do in H.
    destruct (chat_loop_ran W fuel (emit [Print (VStr "Say 'stop' to end the chat. Use the wake word 'hello' to activate.")] s)) as [Ha _].
    unfold ends_after in Ha. rewrite H in Ha. now apply Ha.
  - destruct (chat_loop_ran W fuel s) as [Ha _].
    unfold ends_after in Ha. rewrite H in Ha. now apply Ha.
  - destruct (handle_recognized_text_ran W fuel text s) as [Ha _].
    unfold ends_after in Ha. rewrite H in Ha. now apply Ha.
  - pose proof (captured_ends_after _ _ _ (listen_for_command_captured W fuel s)) as Ha.
    unfold ends_after in Ha. rewrite H in Ha. now apply Ha.
  - pose proof (listened_ends_after _ _ _ (vosk_listen_listened W fuel s)) as Ha.
    unfold ends_after in Ha. rewrite H in Ha. now apply Ha.
  - apply respond_to_text_keeps_stop_flag in H. congruence.
  - apply speak_keeps_stop_flag in H. congruence.
Qed.

End StopWord.

(** C3.  An utterance in which "stop" occurs, in any case and at any
    position, sets [stop_flag] when it is interpreted, in the idle state as
    in command capture, and starts no capture, dispatch or speech; the
    top-level loop that heard it ends with that iteration; with the flag
    set every loop returns at once without listening; and no call of the
    program clears the flag. *)
Theorem C3_stop_utterance_halts (W : World) (U : string) (fuel : nat) (s : State W) :
  Text.occurs_ignoring_case "stop" U ->
  handle_recognized_text W fuel U s
    = Ret tt (emit [Print (VStr "Stopping TTS and resetting...")]
                   (emit [EngineStop] (set_stop_flag s))) /\
  (forall s1, vosk_listen W (S fuel) s = Ret (Some U) s1 -> stop_flag s = false ->
     chat_loop W (S (S fuel)) s
       = Ret tt (emit [Print (VStr "Stopping TTS and resetting...")]
                      (emit [EngineStop] (set_stop_flag s1)))) /\
  (forall s1, vosk_listen W fuel s = Ret (Some U) s1 -> stop_flag s = false ->
     listen_for_command W (S fuel) s
       = Ret None (emit [Print (VStr "Exiting...")] (set_stop_flag s1))) /\
  (stop_flag s = true ->
     chat_loop W (S fuel) s = Ret tt s /\
     listen_for_command W (S fuel) s = Ret None s /\
     (forall rec, vosk_listen_loop W (S fuel) rec s = Ret None s)) /\
  (stop_flag s = true ->
     forall text v s',
       final (continuous_chat_with_vosk W fuel s) = Some s' \/
       final (chat_loop W fuel s) = Some s' \/
       final (handle_recognized_text W fuel text s) = Some s' \/
       final (listen_for_command W fuel s) = Some s' \/
       final (vosk_listen W fuel s) = Some s' \/
       final (respond_to_text W text s) = Some s' \/
       final (speak W v s) = Some s' ->
       stop_flag s' = true).
Proof.
  intros HU.
  pose proof (occurs_stop_contains U HU) as Hc.
  pose proof (occurs_stop_truthy U HU) as Ht.
  split; [now apply handle_stop|].
  split.
  { intros s1 Hl Hs. cbn [chat_loop]. rewrite Hs. unfold bind at 1.
    rewrite Hl. rewrite Ht. unfold bind at 1.
    rewrite handle_stop by assumption. reflexivity. }
  split.
  { intros s1 Hl Hs. cbn [listen_for_command]. rewrite Hs. unfold bind at 1.
    rewrite Hl, Ht, Hc. reflexivity. }
  split.
  { intros Hs. split; [now apply chat_loop_stopped|].
    split; [now apply listen_for_command_stopped|].
    intros rec. now apply vosk_listen_loop_stopped. }
  intros Hs text v s'. now apply stop_flag_sticky.
Qed.

(** "please STOP now", heard by the top-level loop, ends it on the spot;
    what was queued behind it is never listened to. *)
Lemma C3_please_stop_now_witness :
  let W := Demo.healthy in
  let s := Demo.start W [@Audio W (Some "please STOP now"); @Audio Demo.healthy (Some "hello")] in
  Text.occurs_ignoring_case "stop" "please STOP now" /\
  chat_loop W 3 s
    = Ret tt {| stop_flag := true; tts_active := false;
                q := [@Audio W (Some "hello")];
                trace := [Print (VStr "Recognized: please STOP now");
                          EngineStop;
                          Print (VStr "Stopping TTS and resetting...")] |}.
Proof.
  assert (H : Text.occurs_ignoring_case "stop" "please STOP now").
  { exists "please ", "STOP", " now". split; reflexivity. }
  split; [exact H|].
  destruct (C3_stop_utterance_halts Demo.healthy "please STOP now" 1
              (Demo.start Demo.healthy [@Audio Demo.healthy (Some "please STOP now"); @Audio Demo.healthy (Some "hello")]) H)
    as (_ & Hloop & _).
  rewrite (Hloop _ eq_refl eq_refl). reflexivity.
Defined.

(** C4.  The stop and wake tests of [handle_recognized_text] are
    case-insensitive substring tests over the whole utterance; an utterance
    with the stop word is handled as a stop, whether or not the wake word
    is in it too; an utterance with the wake word and without the stop word
    starts command capture; any other utterance is dropped. *)
Theorem C4_wake_and_stop_matching (W : World) (U : string) (fuel : nat) (s : State W) :
  (Text.contains "stop" (Text.lower U) = true <-> Text.occurs_ignoring_case "stop" U) /\
  (Text.contains WAKE_WORD (Text.lower U) = true <-> Text.occurs_ignoring_case "hello" U) /\
  (Text.occurs_ignoring_case "stop" U ->
     handle_recognized_text W fuel U s
       = Ret tt (emit [Print (VStr "Stopping TTS and resetting...")]
                      (emit [EngineStop] (set_stop_flag s)))) /\
  (Text.occurs_ignoring_case "hello" U -> ~ Text.occurs_ignoring_case "stop" U ->
     handle_recognized_text W fuel U s
       = (command <- listen_for_command W fuel ;;
          match command with
          | Some c => if Text.truthy c then respond_to_text W c else ret tt
          | None => ret tt
          end) (emit [Print (VStr "Wake word detected, listening for command...")] s)) /\
  (~ Text.occurs_ignoring_case "hello" U -> ~ Text.occurs_ignoring_case "stop" U ->
     handle_recognized_text W fuel U s = Ret tt s).
Proof.
  split; [apply TextFacts.contains_lower_spec|].
  split; [apply TextFacts.contains_lower_spec|].
  split; [intros H; apply handle_stop; now apply occurs_stop_contains|].
  split.
  - intros Hw Hs. apply handle_wake; [now apply not_occurs_contains|].
    now apply TextFacts.contains_lower_spec.
  - intros Hw Hs. apply handle_other; now apply not_occurs_contains.
Qed.

(** "Well HELLO there" starts command capture, and the command heard next
    is dispatched and both answers are spoken. *)
Lemma C4_hello_witness :
  let W := Demo.healthy in
  let s := Demo.start W [@Audio W (Some "what is two plus two")] in
  Text.occurs_ignoring_case "hello" "Well HELLO there" /\
  ~ Text.occurs_ignoring_case "stop" "Well HELLO there" /\
  match handle_recognized_text W 3 "Well HELLO there" s with
  | Ret _ s' =>
      spoken (trace s') = [VStr "Four."; VStr "Two plus two is four."] /\
      q s' = []
  | _ => False
  end.
Proof.
  assert (Hw : Text.occurs_ignoring_case "hello" "Well HELLO there").
  { exists "Well ", "HELLO", " there". split; reflexivity. }
  assert (Hs : ~ Text.occurs_ignoring_case "stop" "Well HELLO there").
  { intros H. apply TextFacts.contains_lower_spec in H. discriminate. }
  split; [exact Hw|]. split; [exact Hs|].
  destruct (C4_wake_and_stop_matching Demo.healthy "Well HELLO there" 3
              (Demo.start Demo.healthy [@Audio Demo.healthy (Some "what is two plus two")]))
    as (_ & _ & _ & Hwake & _).
  rewrite (Hwake Hw Hs). split; reflexivity.
Defined.

Section Busy.

Variable W : World.

Lemma prints_are_no_requests (s s' : State W) :
  after is_print s s' ->
  exists es, trace s' = (trace s ++ es)%list /\ forall b data, ~ In (Post b data) es.
Proof.
  intros (_ & _ & es & Ht & Hp). exists es. split; [exact Ht|].
  intros b data Hin. rewrite Forall_forall in Hp. exact (Hp _ Hin).
Qed.

(** With [tts_active] set, interpreting an utterance makes no request. *)
Lemma handle_busy_prints fuel text (s : State W) :
  tts_active s = true ->
  ends_after (fun e => forall b data, e <> Post b data) s
             (handle_recognized_text W fuel text s).
Proof.
  intros Hbusy.
  destruct (Text.contains "stop" (Text.lower text)) eqn:Hstop.
  - rewrite handle_stop by assumption. unfold ends_after; simpl.
    eapply after_trans; [apply after_set_stop|].
    eapply after_trans; apply after_emit; repeat constructor; discriminate.
  - destruct (Text.contains WAKE_WORD (Text.lower text)) eqn:Hwake.
    + rewrite handle_wake by assumption.
      set (s0 := emit _ s).
      assert (Ha0 : after (fun e : @effect W => forall b data, e <> Post b data) s s0)
        by (apply after_emit; repeat constructor; discriminate).
      assert (Hw : forall e : @effect W, is_print e -> forall b data, e <> Post b data)
        by (intros [] He; try contradiction; discriminate).
      unfold bind.
      pose proof (listen_for_command_captured W fuel s0) as HC.
      pose proof (captured_ends_after W _ _ _ HC) as HE.
      destruct (listen_for_command W fuel s0) as [[c|] s1 | e s1 | s1 |].
      * simpl in HC. destruct HC as (_ & _ & Hfree & _). simpl in Hfree. congruence.
      * eapply ends_after_from; [exact Ha0|].
        eapply ends_after_weaken; [exact Hw | exact HE].
      * eapply ends_after_from; [exact Ha0|].
        eapply ends_after_weaken; [exact Hw | exact HE].
      * eapply ends_after_from; [exact Ha0|].
        eapply ends_after_weaken; [exact Hw | exact HE].
      * exact I.
    + rewrite handle_other by assumption. apply after_refl.
Qed.

End Busy.

(** C5.  While [tts_active] is set, an utterance without the stop word
    heard by [listen_for_command] is dropped with the line
    "TTS active, waiting..." and the loop listens again; no utterance is
    returned as the command, and interpreting an utterance sends no request
    to either backend. *)
Theorem C5_busy_discards_commands (W : World) (fuel : nat) (s : State W) :
  tts_active s = true ->
  (forall U s1,
     stop_flag s = false -> vosk_listen W fuel s = Ret (Some U) s1 ->
     ~ Text.occurs_ignoring_case "stop" U ->
     listen_for_command W (S fuel) s
       = listen_for_command W fuel (emit [Print (VStr "TTS active, waiting...")] s1)) /\
  (forall c s', listen_for_command W fuel s <> Ret (Some c) s') /\
  (forall U s',
     final (handle_recognized_text W fuel U s) = Some s' ->
     exists es, trace s' = (trace s ++ es)%list /\ forall b data, ~ In (Post b data) es).
Proof.
  intros Hbusy. split; [|split].
  - intros U s1 Hs Hl HU. cbn [listen_for_command]. rewrite Hs. unfold bind at 1.
    pose proof (vosk_listen_listened W fuel s) as HL. rewrite Hl in *. simpl in HL.
    destruct HL as (Hn & _ & Ht & _).
    rewrite (proj2 (TextFacts.truthy_iff U) Hn), (not_occurs_contains _ _ HU).
    rewrite Ht, Hbusy. reflexivity.
  - intros c s'. now apply listen_for_command_busy.
  - intros U s' Hf. pose proof (handle_busy_prints W fuel U s Hbusy) as Ha.
    unfold ends_after in Ha. rewrite Hf in Ha.
    destruct Ha as (_ & _ & es & Ht & Hp). exists es. split; [exact Ht|].
    intros b data Hin. rewrite Forall_forall in Hp. exact (Hp _ Hin b data eq_refl).
Qed.

(** With the flag set, "what is two plus two" is dropped; capture goes on
    and ends with the stop word heard next, without a command. *)
Lemma C5_busy_witness :
  let W := Demo.healthy in
  let s := set_tts_active true
             (Demo.start W [@Audio W (Some "what is two plus two");
                            @Audio W (Some "stop")]) in
  tts_active s = true /\
  listen_for_command W 3 s
    = Ret None {| stop_flag := true; tts_active := true; q := [];
                  trace := [Print (VStr "Recognized: what is two plus two");
                            Print (VStr "TTS active, waiting...");
                            Print (VStr "Recognized: stop");
                            Print (VStr "Exiting...")] |}.
Proof.
  split; [reflexivity|].
  destruct (C5_busy_discards_commands Demo.healthy 2
              (set_tts_active true
                 (Demo.start Demo.healthy
                    [@Audio Demo.healthy (Some "what is two plus two");
                     @Audio Demo.healthy (Some "stop")])) eq_refl) as (Hdrop & _).
  rewrite (Hdrop "what is two plus two" _ eq_refl eq_refl).
  - reflexivity.
  - intros H. apply TextFacts.contains_lower_spec in H. discriminate.
Defined.

Section Order.

Variable W : World.

Lemma interleave_Permutation sched (a b : list (@effect W)) :
  Permutation (interleave sched a b) (a ++ b)%list.
Proof.
  revert a b. induction sched as [|[|] sched IH]; intros a b; simpl.
  - apply Permutation_refl.
  - destruct a as [|x a]; simpl; [apply Permutation_refl|].
    apply perm_skip, IH.
  - destruct b as [|y b]; simpl.
    + rewrite app_nil_r. apply Permutation_refl.
    + apply Permutation_cons_app, IH.
Qed.

Lemma respond_to_text_trace text (s : State W) :
  exists s', final (respond_to_text W text s) = Some s' /\
             trace s' = (trace s ++ pool_effects W text ++ after_pool W text)%list.
Proof.
  rewrite respond_to_text_unfold. cbv zeta. unfold after_pool.
  destruct (snd (get_ollama_response W text)) as [o|e];
    [|eexists; split; [reflexivity|]; simpl; now rewrite app_nil_r].
  destruct (snd (get_openai_response W text)) as [c|e];
    [|eexists; split; [reflexivity|]; simpl; now rewrite app_nil_r].
  unfold bind, speak.
  destruct (synthesize W (VStr o)) as [e1|].
  - eexists; split; [reflexivity|]. simpl. now rewrite <- !app_assoc.
  - destruct (synthesize W c) as [e2|];
      (eexists; split; [reflexivity|]; simpl; now rewrite <- !app_assoc).
Qed.

End Order.

(** C6.  In every dispatch the effects of both pool workers, however the
    pool interleaved them, come before anything is handed to the speech
    engine, and what is handed to it is the local answer first and the
    cloud answer second (the second only if speaking the first did not
    raise; nothing if a future raised). *)
Theorem C6_speech_follows_both_results_in_fixed_order
    (W : World) (text : string) (s : State W) :
  Permutation (pool_effects W text)
              (fst (get_ollama_response W text) ++ fst (get_openai_response W text))%list /\
  spoken (pool_effects W text) = [] /\
  exists s' rest,
    final (respond_to_text W text s) = Some s' /\
    trace s' = (trace s ++ pool_effects W text ++ rest)%list /\
    spoken rest =
      match snd (get_ollama_response W text), snd (get_openai_response W text) with
      | Ok o, Ok c =>
          VStr o :: match synthesize W (VStr o) with
                    | None => [c]
                    | Some _ => []
                    end
      | _, _ => []
      end.
Proof.
  split; [apply interleave_Permutation|].
  split; [apply pool_effects_silent|].
  destruct (respond_to_text_trace W text s) as (s' & Hf & Ht).
  exists s', (after_pool W text). split; [exact Hf|]. split; [exact Ht|].
  unfold after_pool.
  destruct (snd (get_ollama_response W text)) as [o|e]; [|reflexivity].
  destruct (snd (get_openai_response W text)) as [c|e]; [|reflexivity].
  destruct (synthesize W (VStr o)); reflexivity.
Qed.

(** C9, as claimed, fails.  The signal is raised while [vosk_listen] waits
    on the queue.  If no block follows, the call never returns; if the
    block that follows completes the utterance "hi", the call returns "hi",
    not "Cancelled". *)
Lemma C9_wait_does_not_watch_the_signal :
  let W := Demo.healthy in
  let alone := Demo.start W [StopRaised] in
  let then_hi := Demo.start W [StopRaised; @Audio W (Some "hi")] in
  (forall fuel, vosk_listen W (S fuel) alone = Blocked (set_stop_flag (Demo.start W []))) /\
  ~ returns_cancelled W alone /\
  (forall fuel,
     vosk_listen W (S fuel) then_hi
       = Ret (Some "hi") (emit [Print (VStr "Recognized: hi")]
                               (set_stop_flag (Demo.start W [])))) /\
  ~ returns_cancelled W then_hi.
Proof.
  cbv zeta. split; [reflexivity|]. split.
  { intros (fuel & s' & H). destruct fuel; discriminate. }
  split; [reflexivity|].
  intros (fuel & s' & H). destruct fuel; discriminate.
Qed.

(** C9, amended.  [vosk_listen] looks at [stop_flag] only where its loop
    condition is tested.  Called with the flag set it returns [None] at
    once and reads no block.  If the flag is raised while it waits on the
    queue, the wait lasts until the next block arrives; the call then
    returns that block's utterance if it completes a non-empty one, and
    [None] otherwise.  If no block arrives, the call does not return. *)
Theorem C9_signal_checked_between_blocks (W : World) (fuel : nat) (s : State W) :
  vosk_setup W = None ->
  (stop_flag s = true -> vosk_listen W (S fuel) s = Ret None s) /\
  (forall data s1,
     stop_flag s = false -> q_get s = inl (data, s1) -> stop_flag s1 = true ->
     vosk_listen W (S (S fuel)) s =
     match snd (AcceptWaveform W (KaldiRecognizer W) data) with
     | Some t =>
         if Text.truthy t
         then Ret (Some t) (emit [Print (VStr ("Recognized: " ++ t))] s1)
         else Ret None s1
     | None => Ret None s1
     end) /\
  (forall s1,
     stop_flag s = false -> q_get s = inr s1 ->
     vosk_listen W (S fuel) s = Blocked s1).
Proof.
  intros Hsetup. unfold vosk_listen. rewrite Hsetup. split; [|split].
  - intros Hs. now apply vosk_listen_loop_stopped.
  - intros data s1 Hs Hq Hs1. cbn [vosk_listen_loop]. rewrite Hs, Hq, Hs1.
    destruct (AcceptWaveform W (KaldiRecognizer W) data) as [rec' [t|]]; simpl;
      [destruct (Text.truthy t)|]; reflexivity.
  - intros s1 Hs Hq. cbn [vosk_listen_loop]. now rewrite Hs, Hq.
Qed.

(** The flag raised during the wait, then a block that ends no utterance:
    [None] comes back only after that block. *)
Lemma C9_between_blocks_witness :
  let W := Demo.healthy in
  let s := Demo.start W [StopRaised; @Audio W None; @Audio W (Some "hi")] in
  vosk_setup W = None /\
  vosk_listen W 2 s
    = Ret None {| stop_flag := true; tts_active := false;
                  q := [@Audio W (Some "hi")]; trace := [] |}.
Proof.
  split; [reflexivity|].
  destruct (C9_signal_checked_between_blocks Demo.healthy 0
              (Demo.start Demo.healthy
                 [StopRaised; @Audio Demo.healthy None; @Audio Demo.healthy (Some "hi")])
              eq_refl) as (_ & Hwait & _).
  exact (Hwait None _ eq_refl eq_refl eq_refl).
Defined.

(** C10.  [listen_for_command] never returns an empty command; every
    request [handle_recognized_text] causes carries a non-empty prompt;
    and when command capture after a wake word ends without a command,
    [handle_recognized_text] returns right there: it has only printed, and
    no request was made. *)
Theorem C10_only_nonempty_commands_dispatched
    (W : World) (U : string) (fuel : nat) (s : State W) :
  (forall c s1, listen_for_command W fuel s = Ret (Some c) s1 -> c <> "") /\
  (forall s',
     final (handle_recognized_text W fuel U s) = Some s' ->
     exists es, trace s' = (trace s ++ es)%list /\
       forall b data, In (Post b data) es ->
         exists c, c <> "" /\ data = request_data b c) /\
  (Text.occurs_ignoring_case "hello" U -> ~ Text.occurs_ignoring_case "stop" U ->
   forall s1,
     listen_for_command W fuel
       (emit [Print (VStr "Wake word detected, listening for command...")] s)
       = Ret None s1 ->
     handle_recognized_text W fuel U s = Ret tt s1 /\
     exists es, trace s1 = (trace s ++ es)%list /\ Forall is_print es).
Proof.
  split; [|split].
  - intros c s1 H. pose proof (listen_for_command_captured W fuel s) as HC.
    rewrite H in HC. apply HC.
  - intros s' Hf. destruct (handle_recognized_text_ran W fuel U s) as [Ha _].
    unfold ends_after in Ha. rewrite Hf in Ha.
    destruct Ha as (_ & _ & es & Ht & Hp). exists es. split; [exact Ht|].
    intros b data Hin. rewrite Forall_forall in Hp. exact (Hp _ Hin).
  - intros Hw Hs s1 Hl.
    rewrite handle_wake;
      [| now apply not_occurs_contains | now apply TextFacts.contains_lower_spec].
    unfold bind. rewrite Hl. split; [reflexivity|].
    pose proof (captured_ends_after W _ _ _ (listen_for_command_captured W fuel
      (emit [Print (VStr "Wake word detected, listening for command...")] s))) as Ha.
    rewrite Hl in Ha. unfold ends_after in Ha. simpl in Ha.
    destruct Ha as (_ & _ & es & Ht & Hp).
    exists ([Print (VStr "Wake word detected, listening for command...")] ++ es)%list.
    split.
    + rewrite Ht. simpl. now rewrite <- app_assoc.
    + constructor; [exact I | exact Hp].
Qed.

(** "hello", then "stop now" during command capture: capture ends without
    a command and nothing is sent to a backend or to the engine. *)
Lemma C10_no_command_witness :
  let W := Demo.healthy in
  let s := Demo.start W [@Audio W (Some "stop now")] in
  Text.occurs_ignoring_case "hello" "hello" /\
  ~ Text.occurs_ignoring_case "stop" "hello" /\
  handle_recognized_text W 2 "hello" s
    = Ret tt {| stop_flag := true; tts_active := false; q := [];
                trace := [Print (VStr "Wake word detected, listening for command...");
                          Print (VStr "Recognized: stop now");
                          Print (VStr "Exiting...")] |}.
Proof.
  assert (Hw : Text.occurs_ignoring_case "hello" "hello").
  { exists "", "hello", "". split; reflexivity. }
  assert (Hs : ~ Text.occurs_ignoring_case "stop" "hello").
  { intros H. apply TextFacts.contains_lower_spec in H. discriminate. }
  split; [exact Hw|]. split; [exact Hs|].
  destruct (C10_only_nonempty_commands_dispatched Demo.healthy "hello" 2
              (Demo.start Demo.healthy [@Audio Demo.healthy (Some "stop now")]))
    as (_ & _ & Hnone).
  exact (proj1 (Hnone Hw Hs _ eq_refl)).
Defined.

(* ===================================================================== *)
(** ** Further properties of the backends' answers                        *)
(* ===================================================================== *)

Section MoreAnswers.

Variable W : World.

Lemma process_ollama_lines_app l1 l2 acc :
  process_ollama_lines W (l1 ++ l2)%list acc
  = rbind (process_ollama_lines W l1 acc) (process_ollama_lines W l2).
Proof.
  revert acc. induction l1 as [|line l1 IH]; intros acc; simpl; [reflexivity|].
  destruct (Text.truthy line); [|apply IH].
  destruct (json_loads W line) as [v|e]; simpl; [|reflexivity].
  destruct (get v "response" (VStr "")) as [x|e]; simpl; [|reflexivity].
  destruct x; try reflexivity. apply IH.
Qed.

Lemma process_ollama_lines_extends lines acc r :
  process_ollama_lines W lines acc = Ok r -> exists more, r = acc ++ more.
Proof.
  revert acc. induction lines as [|line lines IH]; intros acc; simpl.
  - intros H. injection H as <-. exists "". now rewrite TextFacts.append_empty_r.
  - destruct (Text.truthy line); [|apply IH].
    destruct (json_loads W line) as [v|e]; simpl; [|discriminate].
    destruct (get v "response" (VStr "")) as [x|e]; simpl; [|discriminate].
    destruct x; try discriminate. intros H.
    destruct (IH _ H) as [more ->]. exists (s ++ more).
    now rewrite TextFacts.append_assoc.
Qed.

Lemma openai_except_no_request_exception e msg :
  openai_except e <> Err (RequestException msg).
Proof. destruct e; discriminate. Qed.

End MoreAnswers.

(** [process_ollama_response] reads a reply piece by piece: reading
    [l1 ++ l2] from an accumulated text is reading [l1] and going on with
    [l2] from what that gave (or failing where [l1] fails), and a result
    always starts with the text accumulated so far. *)
Theorem process_ollama_lines_compose (W : World) (l1 l2 : list string) (acc : string) :
  process_ollama_lines W (l1 ++ l2)%list acc
    = rbind (process_ollama_lines W l1 acc) (process_ollama_lines W l2) /\
  (forall r, process_ollama_lines W l1 acc = Ok r -> exists more, r = acc ++ more).
Proof.
  split; [apply process_ollama_lines_app|].
  intros r. apply process_ollama_lines_extends.
Qed.

(** The first line of the local reply that is not an empty line or a JSON
    object with a text (or nothing) under ["response"] makes
    [process_ollama_response] raise, whatever follows and whatever was read
    before: [json.loads]'s error for a line that is no JSON, [AttributeError]
    for JSON that is no object, [TypeError] for a ["response"] that is no
    text. *)
Theorem process_ollama_response_first_bad_line
    (W : World) (response : Response) (good : list string) (pieces : list string)
    (bad : string) (rest : list string) :
  iter_lines response = (good ++ bad :: rest)%list ->
  Forall2 (line_fragment W) good pieces ->
  bad <> "" ->
  (forall e, json_loads W bad = Err e -> process_ollama_response W response = Err e) /\
  (forall v, json_loads W bad = Ok v -> (forall d, v <> VDict d) ->
     process_ollama_response W response = Err AttributeError) /\
  (forall d x, json_loads W bad = Ok (VDict d) -> dict_get d "response" = Some x ->
     (forall t, x <> VStr t) ->
     process_ollama_response W response = Err TypeError).
Proof.
  intros Hlines Hgood Hbad. unfold process_ollama_response. rewrite Hlines.
  rewrite process_ollama_lines_app, (process_ollama_lines_join W _ _ "" Hgood).
  cbn [rbind process_ollama_lines].
  rewrite (proj2 (TextFacts.truthy_iff bad) Hbad).
  split; [|split].
  - intros e He. now rewrite He.
  - intros v Hv Hnd. rewrite Hv. simpl.
    destruct v; try reflexivity. now destruct (Hnd d).
  - intros d x Hv Hx Hns. rewrite Hv. simpl. rewrite Hx.
    destruct x; try reflexivity. now destruct (Hns s).
Qed.

(** A fragment, then a line that is no JSON: the fragment is lost with the
    rest. *)
Lemma process_ollama_response_first_bad_line_witness :
  let response := {| status_code := 200; text := "";
                     iter_lines := [Demo.response_line "Four"; "oops"; Demo.response_line "."];
                     json := Err JSONDecodeError |} in
  iter_lines response = ([Demo.response_line "Four"] ++ "oops" :: [Demo.response_line "."])%list /\
  Forall2 (line_fragment Demo.healthy) [Demo.response_line "Four"] ["Four"] /\
  "oops" <> "" /\
  process_ollama_response Demo.healthy response = Err JSONDecodeError.
Proof.
  cbv zeta.
  assert (Hg : Forall2 (line_fragment Demo.healthy) [Demo.response_line "Four"] ["Four"]).
  { repeat constructor.
    eapply object_with_response; [discriminate | reflexivity | reflexivity]. }
  split; [reflexivity|]. split; [exact Hg|]. split; [discriminate|].
  refine (proj1 (process_ollama_response_first_bad_line Demo.healthy
                   {| status_code := 200; text := "";
                      iter_lines := [Demo.response_line "Four"; "oops"; Demo.response_line "."];
                      json := Err JSONDecodeError |}
                   [Demo.response_line "Four"] ["Four"] "oops" [Demo.response_line "."]
                   eq_refl Hg _) _ eq_refl).
  discriminate.
Defined.

(** A 200 reply of the cloud backend that lacks ["choices"], or whose first
    choice lacks ["message"], or whose message lacks ["content"], becomes
    the text "No response content.". *)
Theorem process_openai_response_defaults (response : Response) (d : list (string * value)) :
  status_code response = 200%Z -> json response = Ok (VDict d) ->
  (dict_get d "choices" = None ->
     process_openai_response response = Ok (VStr "No response content.")) /\
  (forall first others,
     dict_get d "choices" = Some (VList (VDict first :: others)) ->
     dict_get first "message" = None ->
     process_openai_response response = Ok (VStr "No response content.")) /\
  (forall first others m,
     dict_get d "choices" = Some (VList (VDict first :: others)) ->
     dict_get first "message" = Some (VDict m) ->
     dict_get m "content" = None ->
     process_openai_response response = Ok (VStr "No response content.")).
Proof.
  intros Hs Hj. unfold process_openai_response. rewrite Hs, Hj. cbn.
  split; [|split].
  - intros ->. reflexivity.
  - intros first others -> Hm. cbn. now rewrite Hm.
  - intros first others m -> Hm Hc. cbn. rewrite Hm. cbn. now rewrite Hc.
Qed.

(** An error object sent with status 200 has no choices. *)
Lemma process_openai_response_defaults_witness :
  let response := {| status_code := 200; text := ""; iter_lines := [];
                     json := Ok (VDict [("error", VStr "overloaded")]) |} in
  status_code response = 200%Z /\
  json response = Ok (VDict [("error", VStr "overloaded")]) /\
  dict_get [("error", VStr "overloaded")] "choices" = None /\
  process_openai_response response = Ok (VStr "No response content.").
Proof.
  cbv zeta. split; [reflexivity|]. split; [reflexivity|]. split; [reflexivity|].
  exact (proj1 (process_openai_response_defaults
                  {| status_code := 200; text := ""; iter_lines := [];
                     json := Ok (VDict [("error", VStr "overloaded")]) |}
                  [("error", VStr "overloaded")] eq_refl eq_refl) eq_refl).
Defined.

(** A 200 reply of the cloud backend with an empty ["choices"] list makes
    [process_openai_response] raise [IndexError]; [get_openai_response]
    does not catch it, so [respond_to_text] is left by an exception once
    both workers are done: the answers are not printed and nothing is
    spoken. *)
Theorem empty_choices_escape
    (W : World) (prompt : string) (response : Response) (d : list (string * value)) :
  requests_post W openai_url openai_headers (openai_data prompt) = Ok response ->
  status_code response = 200%Z -> json response = Ok (VDict d) ->
  dict_get d "choices" = Some (VList []) ->
  process_openai_response response = Err IndexError /\
  snd (get_openai_response W prompt) = Err IndexError /\
  forall s : State W,
    exists e, respond_to_text W prompt s = Raise e (emit (pool_effects W prompt) s).
Proof.
  intros Hpost Hs Hj Hc.
  assert (Hp : process_openai_response response = Err IndexError).
  { unfold process_openai_response. rewrite Hs, Hj. cbn. now rewrite Hc. }
  assert (Hg : snd (get_openai_response W prompt) = Err IndexError).
  { unfold get_openai_response, measure_total_time. rewrite Hpost. cbn. now rewrite Hp. }
  split; [exact Hp|]. split; [exact Hg|].
  intros s. rewrite respond_to_text_unfold. cbv zeta. rewrite Hg.
  destruct (snd (get_ollama_response W prompt)) as [o|e]; eauto.
Qed.

Lemma empty_choices_escape_witness :
  let response := {| status_code := 200; text := ""; iter_lines := [];
                     json := Ok (VDict [("choices", VList [])]) |} in
  let W := Demo.world (Ok Demo.four_response) (Ok response) (fun _ => None) in
  requests_post W openai_url openai_headers (openai_data "hi") = Ok response /\
  respond_to_text W "hi" (Demo.start W [])
    = Raise IndexError (emit (pool_effects W "hi") (Demo.start W [])).
Proof.
  cbv zeta. split; [reflexivity|].
  destruct (empty_choices_escape
              (Demo.world (Ok Demo.four_response)
                 (Ok {| status_code := 200; text := ""; iter_lines := [];
                        json := Ok (VDict [("choices", VList [])]) |}) (fun _ => None))
              "hi" {| status_code := 200; text := ""; iter_lines := [];
                      json := Ok (VDict [("choices", VList [])]) |}
              [("choices", VList [])] eq_refl eq_refl eq_refl eq_refl)
    as (_ & _ & H).
  destruct (H (Demo.start _ [])) as [e He]. rewrite He.
  cbv in He. injection He as <-. reflexivity.
Defined.

(** The future of the cloud worker never holds a [RequestException]: such
    an exception, from the request or from reading the reply, has been
    turned into a text.  So a [RequestException] that leaves
    [respond_to_text] before anything is spoken is the local worker's. *)
Theorem get_openai_response_never_request_exception (W : World) (prompt msg : string) :
  snd (get_openai_response W prompt) <> Err (RequestException msg).
Proof.
  unfold get_openai_response.
  destruct (measure_total_time W _ _ _ _) as [[response total_time]|e]; cbn.
  - destruct (process_openai_response response) as [r|e]; cbn; [discriminate|].
    apply openai_except_no_request_exception.
  - apply openai_except_no_request_exception.
Qed.

(** When the request to the cloud backend raises a [RequestException] with
    message [msg], or the reply has status 200 and reading its JSON raises
    one, the cloud answer is the text "OpenAI API Request Failed: msg", no
    timing line is printed for the cloud worker, and if the local worker
    delivered [o], [respond_to_text] speaks [o] and then that text. *)
Theorem cloud_request_failure_is_spoken (W : World) (prompt msg o : string) :
  requests_post W openai_url openai_headers (openai_data prompt)
    = Err (RequestException msg) \/
  (exists response,
     requests_post W openai_url openai_headers (openai_data prompt) = Ok response /\
     status_code response = 200%Z /\ json response = Err (RequestException msg)) ->
  get_openai_response W prompt
    = ([Post Cloud (openai_data prompt)],
       Ok (VStr ("OpenAI API Request Failed: " ++ msg))) /\
  (snd (get_ollama_response W prompt) = Ok o ->
   forall s : State W,
     respond_to_text W prompt s =
     (speak W (VStr o) ;; speak W (VStr ("OpenAI API Request Failed: " ++ msg)))
       (emit (response_prints o (VStr ("OpenAI API Request Failed: " ++ msg)))
             (emit (pool_effects W prompt) s))).
Proof.
  intros H.
  assert (Hg : get_openai_response W prompt
               = ([Post Cloud (openai_data prompt)],
                  Ok (VStr ("OpenAI API Request Failed: " ++ msg)))).
  { unfold get_openai_response, measure_total_time.
    destruct H as [-> | (response & -> & Hs & Hj)]; [reflexivity|].
    cbn. unfold process_openai_response. rewrite Hs, Hj. reflexivity. }
  split; [exact Hg|]. intros Ho s.
  apply respond_to_text_both; [exact Ho | now rewrite Hg].
Qed.

Lemma cloud_request_failure_is_spoken_witness :
  let W := Demo.cloud_down in
  (requests_post W openai_url openai_headers (openai_data "hi")
     = Err (RequestException "Connection refused") \/
   exists response,
     requests_post W openai_url openai_headers (openai_data "hi") = Ok response /\
     status_code response = 200%Z /\
     json response = Err (RequestException "Connection refused")) /\
  match respond_to_text W "hi" (Demo.start W []) with
  | Ret _ s' =>
      spoken (trace s')
      = [VStr "Four."; VStr "OpenAI API Request Failed: Connection refused"]
  | _ => False
  end.
Proof.
  cbv zeta.
  assert (H : requests_post Demo.cloud_down openai_url openai_headers (openai_data "hi")
                = Err (RequestException "Connection refused") \/
              exists response,
                requests_post Demo.cloud_down openai_url openai_headers (openai_data "hi")
                  = Ok response /\
                status_code response = 200%Z /\
                json response = Err (RequestException "Connection refused"))
    by (left; reflexivity).
  split; [exact H|].
  destruct (cloud_request_failure_is_spoken Demo.cloud_down "hi" "Connection refused"
              "Four." H) as [_ Hr].
  rewrite (Hr eq_refl). reflexivity.
Defined.

(* ===================================================================== *)
(** ** Further properties of listening                                    *)
(* ===================================================================== *)

Section MoreListening.

Variable W : World.

Lemma with_q_with_q (a b : list (@arrival W)) (s : State W) :
  with_q a (with_q b s) = with_q a s.
Proof. reflexivity. Qed.

(** The loop on a queue of blocks only, up to the block that completes a
    non-empty utterance. *)
Lemma vosk_listen_loop_first_utterance pre :
  forall rec (s : State W) d post rec' rec'' t fuel,
    stop_flag s = false ->
    q s = map Audio (pre ++ d :: post)%list ->
    run_quiet W rec pre = Some rec' ->
    AcceptWaveform W rec' d = (rec'', Some t) -> t <> "" ->
    (List.length pre < fuel)%nat ->
    vosk_listen_loop W fuel rec s
    = Ret (Some t) (emit [Print (VStr ("Recognized: " ++ t))]
                         (with_q (map Audio post) s)).
Proof.
  induction pre as [|x pre IH]; intros rec s d post rec' rec'' t fuel Hs Hq Hrun Hd Ht Hf;
    (destruct fuel as [|fuel]; [simpl in Hf; lia|]); cbn [vosk_listen_loop];
    rewrite Hs; unfold q_get; rewrite Hq; cbn [app map q_get_from].
  - cbn in Hrun. injection Hrun as <-. rewrite Hd.
    now rewrite (proj2 (TextFacts.truthy_iff t) Ht).
  - cbn [run_quiet] in Hrun.
    assert (Hnext : vosk_listen_loop W fuel (fst (AcceptWaveform W rec x))
                      (with_q (map Audio (pre ++ d :: post)%list) s)
                    = Ret (Some t) (emit [Print (VStr ("Recognized: " ++ t))]
                                         (with_q (map Audio post) s))).
    { destruct (AcceptWaveform W rec x) as [r1 [u|]] eqn:E; cbn [fst];
        [destruct (Text.truthy u); [discriminate|]|];
        (rewrite (IH r1 (with_q (map Audio (pre ++ d :: post)%list) s)
                    d post rec' rec'' t fuel); auto; simpl in Hf; lia). }
    destruct (AcceptWaveform W rec x) as [r1 [u|]]; cbn [fst] in Hnext.
    + destruct (Text.truthy u) eqn:Hu; [|exact Hnext].
      cbn [run_quiet] in Hrun. discriminate.
    + exact Hnext.
Qed.

(** The loop on a queue of blocks only, none of which completes a
    non-empty utterance. *)
Lemma vosk_listen_loop_quiet frames :
  forall rec (s : State W) rec' fuel,
    stop_flag s = false ->
    q s = map Audio frames ->
    run_quiet W rec frames = Some rec' ->
    (List.length frames < fuel)%nat ->
    vosk_listen_loop W fuel rec s = Blocked (with_q [] s).
Proof.
  induction frames as [|x frames IH]; intros rec s rec' fuel Hs Hq Hrun Hf;
    (destruct fuel as [|fuel]; [simpl in Hf; lia|]); cbn [vosk_listen_loop];
    rewrite Hs; unfold q_get; rewrite Hq; cbn [map q_get_from].
  - reflexivity.
  - cbn [run_quiet] in Hrun.
    destruct (AcceptWaveform W rec x) as [r1 [u|]].
    + destruct (Text.truthy u); [discriminate|].
      rewrite (IH r1 (with_q (map Audio frames) s) rec' fuel); auto.
      simpl in Hf; lia.
    + rewrite (IH r1 (with_q (map Audio frames) s) rec' fuel); auto.
      simpl in Hf; lia.
Qed.

Lemma callbacks_spec calls :
  forall s : State W,
    q (callbacks calls s) = (q s ++ map Audio (map fst calls))%list /\
    stop_flag (callbacks calls s) = stop_flag s /\
    tts_active (callbacks calls s) = tts_active s /\
    trace (callbacks calls s) = trace s.
Proof.
  induction calls as [|[d st] calls IH]; intros s; cbn [callbacks map fst].
  - now rewrite app_nil_r.
  - destruct (IH (snd (callback d st s))) as (Hq & Hs & Ht & Hl).
    rewrite Hq, Hs, Ht, Hl. cbn. now rewrite <- app_assoc.
Qed.

Lemma q_get_from_with_q pending :
  forall (x : list (@arrival W)) (s0 : State W),
    q_get_from pending (with_q x s0) = q_get_from pending s0.
Proof.
  induction pending as [|[d|] pending IH]; intros x s0; cbn [q_get_from].
  - reflexivity.
  - reflexivity.
  - change (set_stop_flag (with_q x s0)) with (with_q x (set_stop_flag s0)).
    apply IH.
Qed.

Lemma q_get_from_put pending :
  forall (s0 : State W) d,
    q_get_from (pending ++ [Audio d])%list s0 =
    match q_get_from pending s0 with
    | inl (data, s1) => inl (data, with_q (q s1 ++ [Audio d])%list s1)
    | inr s1 => inl (d, s1)
    end.
Proof.
  induction pending as [|[x|] pending IH]; intros s0 d; cbn.
  - reflexivity.
  - reflexivity.
  - apply IH.
Qed.

End MoreListening.

(** [vosk_listen] returns the first non-empty utterance the decoder
    completes: on a queue of blocks, with the blocks before [d] completing
    none (a completed empty text counts as none) and [d] completing [t],
    a fresh decoder is fed the blocks in queue order up to [d], the line
    "Recognized: t" is printed, [t] is returned, and the blocks after [d]
    stay queued. *)
Theorem vosk_listen_first_utterance
    (W : World) (s : State W) (pre : list (Frame W)) (d : Frame W)
    (post : list (Frame W)) (rec' rec'' : Recognizer W) (t : string) (fuel : nat) :
  vosk_setup W = None -> stop_flag s = false ->
  q s = map Audio (pre ++ d :: post)%list ->
  run_quiet W (KaldiRecognizer W) pre = Some rec' ->
  AcceptWaveform W rec' d = (rec'', Some t) -> t <> "" ->
  (List.length pre < fuel)%nat ->
  vosk_listen W fuel s
  = Ret (Some t) (emit [Print (VStr ("Recognized: " ++ t))]
                       (with_q (map Audio post) s)).
Proof.
  intros Hsetup Hs Hq Hrun Hd Ht Hf. unfold vosk_listen. rewrite Hsetup.
  eapply vosk_listen_loop_first_utterance; eauto.
Qed.

Lemma vosk_listen_first_utterance_witness :
  let W := Demo.healthy in
  let s := Demo.start W (map (@Audio W) [None; Some ""; Some "hello"; Some "later"]) in
  vosk_setup W = None /\ stop_flag s = false /\
  run_quiet W (KaldiRecognizer W) [None; Some ""] = Some tt /\
  "hello" <> "" /\
  vosk_listen W 3 s
  = Ret (Some "hello") {| stop_flag := false; tts_active := false;
                          q := [@Audio W (Some "later")];
                          trace := [Print (VStr "Recognized: hello")] |}.
Proof.
  cbv zeta. split; [reflexivity|]. split; [reflexivity|]. split; [reflexivity|].
  assert (Hne : "hello" <> "") by discriminate. split; [exact Hne|].
  exact (vosk_listen_first_utterance Demo.healthy
           (Demo.start Demo.healthy (map (@Audio Demo.healthy) [None; Some ""; Some "hello"; Some "later"]))
           [None; Some ""] (Some "hello") [Some "later"] tt tt "hello" 3
           eq_refl eq_refl eq_refl eq_refl eq_refl Hne (le_n 3)).
Defined.

(** On a queue of blocks none of which completes a non-empty utterance,
    [vosk_listen] reads them all and then waits for more: it does not
    return, and the queue is left empty. *)
Theorem vosk_listen_waits_when_quiet
    (W : World) (s : State W) (frames : list (Frame W)) (rec' : Recognizer W)
    (fuel : nat) :
  vosk_setup W = None -> stop_flag s = false ->
  q s = map Audio frames ->
  run_quiet W (KaldiRecognizer W) frames = Some rec' ->
  (List.length frames < fuel)%nat ->
  vosk_listen W fuel s = Blocked (with_q [] s).
Proof.
  intros Hsetup Hs Hq Hrun Hf. unfold vosk_listen. rewrite Hsetup.
  eapply vosk_listen_loop_quiet; eauto.
Qed.

Lemma vosk_listen_waits_when_quiet_witness :
  let W := Demo.healthy in
  let s := Demo.start W (map (@Audio W) [None; Some ""; None]) in
  vosk_setup W = None /\ stop_flag s = false /\
  run_quiet W (KaldiRecognizer W) [None; Some ""; None] = Some tt /\
  vosk_listen W 4 s = Blocked (Demo.start W []).
Proof.
  cbv zeta. split; [reflexivity|]. split; [reflexivity|]. split; [reflexivity|].
  exact (vosk_listen_waits_when_quiet Demo.healthy
           (Demo.start Demo.healthy (map (@Audio Demo.healthy) [None; Some ""; None]))
           [None; Some ""; None] tt 4 eq_refl eq_refl eq_refl eq_refl (le_n 4)).
Defined.

(** The audio callback queues every block, whatever [status] says (a
    truthy status is only printed); the queue is first-in first-out: a get
    after a put gives what it would have given before the put, or the new
    block when no block was queued; and a run of callbacks queues its
    blocks in call order and touches neither flag nor log. *)
Theorem callback_queue_is_fifo
    (W : World) (s : State W) (indata : Frame W) (status : option string) :
  fst (callback indata status s) = status /\
  q (snd (callback indata status s)) = (q s ++ [Audio indata])%list /\
  q_get (snd (callback indata status s)) =
    match q_get s with
    | inl (data, s1) => inl (data, snd (callback indata status s1))
    | inr s1 => inl (indata, s1)
    end /\
  forall calls,
    q (callbacks calls s) = (q s ++ map Audio (map fst calls))%list /\
    stop_flag (callbacks calls s) = stop_flag s /\
    tts_active (callbacks calls s) = tts_active s /\
    trace (callbacks calls s) = trace s.
Proof.
  split; [reflexivity|]. split; [reflexivity|]. split.
  - unfold q_get, callback. cbn [snd q with_q].
    rewrite q_get_from_with_q, q_get_from_put.
    destruct (q_get_from (q s) s) as [[data s1]|s1]; reflexivity.
  - intros calls. apply callbacks_spec.
Qed.

(** When the device query, the model load or the opening of the input
    stream raises, that exception leaves [vosk_listen] before any block is
    read, and with it [listen_for_command], the interpretation of a
    wake-word utterance and the whole chat: nothing catches it. *)
Theorem setup_failure_is_fatal (W : World) (e : exn) (fuel : nat) (s : State W) :
  vosk_setup W = Some e -> stop_flag s = false ->
  vosk_listen W fuel s = Raise e s /\
  listen_for_command W (S fuel) s = Raise e s /\
  continuous_chat_with_vosk W (S fuel) s
    = Raise e (emit [Print (VStr "Say 'stop' to end the chat. Use the wake word 'hello' to activate.")] s) /\
  (forall U,
     Text.occurs_ignoring_case "hello" U -> ~ Text.occurs_ignoring_case "stop" U ->
     handle_recognized_text W (S fuel) U s
       = Raise e (emit [Print (VStr "Wake word detected, listening for command...")] s)).
Proof.
  intros He Hs.
  assert (Hl : forall f (s0 : State W), vosk_listen W f s0 = Raise e s0)
    by (intros f s0; unfold vosk_listen; now rewrite He).
  split; [apply Hl|]. split; [|split].
  - cbn [listen_for_command]. rewrite Hs. unfold bind. now rewrite Hl.
  - unfold continuous_chat_with_vosk, bind at 1, print, do.
    cbn [chat_loop]. cbn [stop_flag emit]. rewrite Hs. unfold bind. now rewrite Hl.
  - intros U Hw Hst.
    rewrite handle_wake;
      [| now apply not_occurs_contains | now apply TextFacts.contains_lower_spec].
    unfold bind at 1. cbn [listen_for_command]. cbn [stop_flag emit]. rewrite Hs.
    unfold bind. now rewrite Hl.
Qed.

Lemma setup_failure_is_fatal_witness :
  let W := no_device in
  vosk_setup W = Some (OtherError "Invalid input device") /\
  continuous_chat_with_vosk W 1 (Demo.start W [@Audio W (Some "hello")])
  = Raise (OtherError "Invalid input device")
      {| stop_flag := false; tts_active := false; q := [@Audio W (Some "hello")];
         trace := [Print (VStr "Say 'stop' to end the chat. Use the wake word 'hello' to activate.")] |}.
Proof.
  cbv zeta. split; [reflexivity|].
  exact (proj1 (proj2 (proj2
    (setup_failure_is_fatal no_device (OtherError "Invalid input device") 0
       (Demo.start no_device [@Audio no_device (Some "hello")]) eq_refl eq_refl)))).
Defined.

(* ===================================================================== *)
(** ** Further properties of the control flow                             *)
(* ===================================================================== *)

Section Outcomes.

Variable W : World.

Lemma vosk_listen_loop_blocked fuel :
  forall rec (s s' : State W),
    vosk_listen_loop W fuel rec s = Blocked s' -> q s' = [].
Proof.
  induction fuel as [|fuel IH]; intros rec s s'; cbn [vosk_listen_loop];
    [discriminate|].
  destruct (stop_flag s); [discriminate|].
  destruct (q_get s) as [[data s1]|s1] eqn:Hq.
  - destruct (AcceptWaveform W rec data) as [rec' [t|]]; [|apply IH].
    destruct (Text.truthy t); [discriminate | apply IH].
  - intros H. injection H as <-. now destruct (q_get_from_inr W _ _ _ Hq) as (_ & _ & H & _).
Qed.

Lemma vosk_listen_blocked fuel (s s' : State W) :
  vosk_listen W fuel s = Blocked s' -> q s' = [].
Proof.
  unfold vosk_listen. destruct (vosk_setup W); [discriminate|].
  apply vosk_listen_loop_blocked.
Qed.

Lemma listen_for_command_blocked fuel :
  forall s s' : State W, listen_for_command W fuel s = Blocked s' -> q s' = [].
Proof.
  induction fuel as [|fuel IH]; intros s s'; cbn [listen_for_command];
    [discriminate|].
  destruct (stop_flag s); [discriminate|]. unfold bind at 1.
  destruct (vosk_listen W fuel s) as [[t|] s1|e s1|s1|] eqn:Hl; try discriminate.
  - destruct (Text.truthy t); [|apply IH].
    destruct (Text.contains "stop" (Text.lower t)); [discriminate|].
    destruct (tts_active s1); cbn [negb]; [|discriminate].
    unfold bind, print, do. apply IH.
  - apply IH.
  - intros H. injection H as <-. eapply vosk_listen_blocked; eauto.
Qed.

(** How a dispatch can end, and what it leaves behind. *)
Lemma respond_to_text_outcome text (s : State W) :
  match respond_to_text W text s with
  | Ret _ s' => q s' = q s /\ stop_flag s' = stop_flag s /\ tts_active s' = false
  | Raise e s' =>
      q s' = q s /\ stop_flag s' = stop_flag s /\
      (tts_active s' = tts_active s \/
       (tts_active s' = true /\ exists v, synthesize W v = Some e))
  | Blocked _ => False
  | OutOfFuel => False
  end.
Proof.
  rewrite respond_to_text_unfold. cbv zeta.
  destruct (snd (get_ollama_response W text)) as [o|e]; [|cbn; auto].
  destruct (snd (get_openai_response W text)) as [c|e]; [|cbn; auto].
  unfold bind, speak.
  destruct (synthesize W (VStr o)) as [e1|] eqn:E1.
  - cbn. repeat split; auto. right. split; [reflexivity|]. now exists (VStr o).
  - destruct (synthesize W c) as [e2|] eqn:E2.
    + cbn. repeat split; auto. right. split; [reflexivity|]. now exists c.
    + cbn. auto.
Qed.

(** How the interpretation of one utterance can end. *)
Lemma handle_recognized_text_outcome fuel text (s : State W) :
  match handle_recognized_text W fuel text s with
  | Ret _ s' => tts_active s = false -> tts_active s' = false
  | Raise e s' =>
      tts_active s = false -> tts_active s' = true ->
      exists v, synthesize W v = Some e
  | Blocked s' => q s' = [] /\ tts_active s' = tts_active s
  | OutOfFuel => True
  end.
Proof.
  destruct (Text.contains "stop" (Text.lower text)) eqn:Hstop.
  { rewrite handle_stop by assumption. cbn. auto. }
  destruct (Text.contains WAKE_WORD (Text.lower text)) eqn:Hwake.
  2:{ rewrite handle_other by assumption. auto. }
  rewrite handle_wake by assumption. unfold bind.
  set (s0 := emit _ s).
  pose proof (listen_for_command_captured W fuel s0) as HC.
  pose proof (listen_for_command_blocked fuel s0) as HB.
  destruct (listen_for_command W fuel s0) as [[c|] s1|e s1|s1|]; cbn in HC.
  - destruct HC as (Hn & _ & _ & Ht1 & _).
    rewrite (proj2 (TextFacts.truthy_iff c) Hn).
    pose proof (respond_to_text_outcome c s1) as HR.
    destruct (respond_to_text W c s1) as [[] s2|e s2|s2|]; try contradiction.
    + intros _. apply HR.
    + intros _ Hset. destruct HR as (_ & _ & [Hsame|[_ Hv]]); [congruence | exact Hv].
  - destruct HC as (_ & Ht & _). cbn. intros H. now rewrite Ht.
  - destruct HC as (_ & Ht & _). intros H1 H2. cbn in Ht. congruence.
  - destruct HC as (Ht & _). split; [now apply HB | exact Ht].
  - exact I.
Qed.

(** How the top-level loop can end. *)
Lemma chat_loop_outcome fuel :
  forall s : State W,
    match chat_loop W fuel s with
    | Ret _ s' => stop_flag s' = true /\ (tts_active s = false -> tts_active s' = false)
    | Raise e s' =>
        tts_active s = false -> tts_active s' = true ->
        exists v, synthesize W v = Some e
    | Blocked s' => q s' = [] /\ (tts_active s = false -> tts_active s' = false)
    | OutOfFuel => True
    end.
Proof.
  induction fuel as [|fuel IH]; intros s; cbn [chat_loop]; [exact I|].
  destruct (stop_flag s) eqn:Hs; [auto|].
  unfold bind at 1. unfold bind at 1.
  pose proof (vosk_listen_listened W fuel s) as HL.
  pose proof (vosk_listen_blocked fuel s) as HB.
  destruct (vosk_listen W fuel s) as [[t|] s1|e s1|s1|]; cbn in HL.
  - destruct HL as (Hn & _ & Ht & _).
    rewrite (proj2 (TextFacts.truthy_iff t) Hn).
    pose proof (handle_recognized_text_outcome fuel t s1) as HH.
    destruct (handle_recognized_text W fuel t s1) as [[] s2|e s2|s2|].
    + specialize (IH s2).
      destruct (chat_loop W fuel s2) as [[] s3|e s3|s3|].
      * destruct IH as [H1 H2]. split; [exact H1|]. intros H. apply H2, HH. congruence.
      * intros H. apply IH, HH. congruence.
      * destruct IH as [H1 H2]. split; [exact H1|]. intros H. apply H2, HH. congruence.
      * exact I.
    + intros H. apply HH. congruence.
    + destruct HH as [H1 H2]. split; [exact H1 | congruence].
    + exact I.
  - destruct HL as (Hstop & Ht & _). unfold ret.
    destruct fuel as [|fuel]; [exact I|].
    rewrite chat_loop_stopped by assumption.
    split; [exact Hstop | congruence].
  - destruct HL as (_ & Ht & _). intros H1 H2. congruence.
  - destruct HL as (Ht & _). split; [now apply HB | congruence].
  - exact I.
Qed.

End Outcomes.

Section MoreControl.

Variable W : World.

Lemma interleave_filter_l (p : @effect W -> bool) sched :
  forall a b, forallb p a = true -> forallb (fun e => negb (p e)) b = true ->
    filter p (interleave sched a b) = a.
Proof.
  assert (Hb : forall b, forallb (fun e => negb (p e)) b = true -> filter p b = []).
  { induction b as [|y b IHb]; cbn; [reflexivity|].
    rewrite andb_true_iff, negb_true_iff. intros [-> H]. now apply IHb. }
  assert (Ha : forall a, forallb p a = true -> filter p a = a).
  { induction a as [|x a IHa]; cbn; [reflexivity|].
    rewrite andb_true_iff. intros [-> H]. now rewrite IHa. }
  induction sched as [|[|] sched IH]; intros a b Hpa Hpb; cbn [interleave].
  - rewrite filter_app, (Ha _ Hpa), (Hb _ Hpb). apply app_nil_r.
  - destruct a as [|x a]; [now apply Hb|].
    cbn in Hpa |- *. apply andb_true_iff in Hpa as [-> Hpa]. now rewrite IH.
  - destruct b as [|y b]; [now apply Ha|].
    cbn in Hpb |- *. apply andb_true_iff in Hpb as [Hy Hpb].
    apply negb_true_iff in Hy. rewrite Hy. now apply IH.
Qed.

Lemma interleave_filter_r (p : @effect W -> bool) sched :
  forall a b, forallb (fun e => negb (p e)) a = true -> forallb p b = true ->
    filter p (interleave sched a b) = b.
Proof.
  assert (Hb : forall b, forallb (fun e => negb (p e)) b = true -> filter p b = []).
  { induction b as [|y b IHb]; cbn; [reflexivity|].
    rewrite andb_true_iff, negb_true_iff. intros [-> H]. now apply IHb. }
  assert (Ha : forall a, forallb p a = true -> filter p a = a).
  { induction a as [|x a IHa]; cbn; [reflexivity|].
    rewrite andb_true_iff. intros [-> H]. now rewrite IHa. }
  induction sched as [|[|] sched IH]; intros a b Hpa Hpb; cbn [interleave].
  - rewrite filter_app, (Hb _ Hpa), (Ha _ Hpb). reflexivity.
  - destruct a as [|x a]; [now apply Ha|].
    cbn in Hpa |- *. apply andb_true_iff in Hpa as [Hx Hpa].
    apply negb_true_iff in Hx. rewrite Hx. now apply IH.
  - destruct b as [|y b]; [now apply Hb|].
    cbn in Hpb |- *. apply andb_true_iff in Hpb as [-> Hpb]. now rewrite IH.
Qed.

Lemma vosk_listen_loop_heard fuel :
  forall rec (s : State W),
    ends_after heard_line s (vosk_listen_loop W fuel rec s).
Proof.
  induction fuel as [|fuel IH]; intros rec s; cbn [vosk_listen_loop]; [exact I|].
  destruct (stop_flag s); [apply after_refl|].
  destruct (q_get s) as [[data s1]|s1] eqn:Hq.
  - destruct (q_get_from_inl W _ _ _ _ Hq) as (_ & Ht & Hl & Hs).
    assert (Ha : after heard_line s s1).
    { split; [exact Hs|]. split; [lia|]. exists []. rewrite app_nil_r. now split. }
    destruct (AcceptWaveform W rec data) as [rec' [t|]];
      [destruct (Text.truthy t)|]; try (eapply ends_after_from; [exact Ha | apply IH]).
    cbn. eapply after_trans; [exact Ha|]. apply after_emit.
    constructor; [|constructor]. left. now exists t.
  - destruct (q_get_from_inr W _ _ _ Hq) as (_ & Ht & Hl & Hs). cbn.
    split; [exact Hs|]. split; [rewrite Hl; cbn; lia|].
    exists []. rewrite app_nil_r. now split.
Qed.

Lemma listen_for_command_heard fuel :
  forall s : State W,
    tts_active s = false -> ends_after heard_line s (listen_for_command W fuel s).
Proof.
  induction fuel as [|fuel IH]; intros s Hfree; cbn [listen_for_command]; [exact I|].
  destruct (stop_flag s); [apply after_refl|]. unfold bind at 1.
  pose proof (vosk_listen_listened W fuel s) as HL.
  assert (HE : ends_after heard_line s (vosk_listen W fuel s)).
  { unfold vosk_listen. destruct (vosk_setup W); [apply after_refl|].
    apply vosk_listen_loop_heard. }
  destruct (vosk_listen W fuel s) as [[t|] s1|e s1|s1|]; cbn in HL;
    unfold ends_after in HE; cbn [final] in HE; try exact HE.
  - destruct HL as (_ & _ & Ht & _).
    assert (Hfree1 : tts_active s1 = false) by congruence.
    destruct (Text.truthy t); [|eapply ends_after_from; [exact HE | now apply IH]].
    destruct (Text.contains "stop" (Text.lower t)).
    + cbn. eapply after_trans; [exact HE|].
      eapply after_trans; [apply after_set_stop|]. apply after_emit.
      constructor; [|constructor]. now right.
    + rewrite Hfree1. cbn. exact HE.
  - destruct HL as (_ & Ht & _).
    eapply ends_after_from; [exact HE | apply IH; congruence].
Qed.

End MoreControl.

(** On a finite run of arrivals the chat ends in one of three ways: it
    returns, and then [stop_flag] is set; an exception leaves it; or it
    waits for audio on the emptied queue.  (A step budget larger than the
    queue by two is never used up.) *)
Theorem chat_ends_properly (W : World) (fuel : nat) (s : State W) :
  (List.length (q s) + 2 <= fuel)%nat ->
  ends_properly (continuous_chat_with_vosk W fuel s) /\
  ends_properly (chat_loop W fuel s).
Proof.
  intros Hf.
  assert (H : forall s0 : State W, List.length (q s0) = List.length (q s) ->
                ends_properly (chat_loop W fuel s0)).
  { intros s0 Hq. pose proof (chat_loop_outcome W fuel s0) as Ho.
    pose proof (chat_loop_enough_fuel W fuel s0) as He.
    destruct (chat_loop W fuel s0) as [[] s'|e s'|s'|]; cbn.
    - apply Ho.
    - exact I.
    - apply Ho.
    - apply He; [lia | reflexivity]. }
  split; [|now apply H].
  unfold continuous_chat_with_vosk, bind, print, do. now apply H.
Qed.

Lemma chat_ends_properly_witness :
  let W := Demo.healthy in
  let s := Demo.start W [@Audio W (Some "hello")] in
  (List.length (q s) + 2 <= 3)%nat /\
  chat_loop W 3 s
  = Blocked {| stop_flag := false; tts_active := false; q := [];
               trace := [Print (VStr "Recognized: hello");
                         Print (VStr "Wake word detected, listening for command...")] |} /\
  ends_properly (chat_loop W 3 s).
Proof.
  cbv zeta. split; [cbn; lia|]. split; [reflexivity|].
  apply (chat_ends_properly Demo.healthy 3
           (Demo.start Demo.healthy [@Audio Demo.healthy (Some "hello")])).
  cbn; lia.
Defined.

(** Started with [tts_active] clear, the chat never returns or waits for
    audio with [tts_active] set; the flag is set at the end only when an
    exception raised by the speech engine left the program. *)
Theorem chat_keeps_tts_clear (W : World) (fuel : nat) (s : State W) :
  tts_active s = false ->
  match continuous_chat_with_vosk W fuel s with
  | Ret _ s' => tts_active s' = false
  | Blocked s' => tts_active s' = false
  | Raise e s' => tts_active s' = true -> exists v, synthesize W v = Some e
  | OutOfFuel => True
  end.
Proof.
  intros Hfree. unfold continuous_chat_with_vosk, bind, print, do.
  set (s0 := emit _ s).
  pose proof (chat_loop_outcome W fuel s0) as Ho.
  destruct (chat_loop W fuel s0) as [[] s'|e s'|s'|].
  - now apply Ho.
  - now apply Ho.
  - now apply Ho.
  - exact I.
Qed.

Lemma chat_keeps_tts_clear_witness :
  let W := Demo.healthy in
  let s := Demo.start W [@Audio W (Some "hello"); @Audio W (Some "what is two plus two");
                         @Audio W (Some "stop")] in
  tts_active s = false /\
  match continuous_chat_with_vosk W 5 s with
  | Ret _ s' =>
      tts_active s' = false /\
      spoken (trace s') = [VStr "Four."; VStr "Two plus two is four."]
  | _ => False
  end.
Proof.
  cbv zeta. split; [reflexivity|].
  pose proof (chat_keeps_tts_clear Demo.healthy 5
                (Demo.start Demo.healthy
                   [@Audio Demo.healthy (Some "hello");
                    @Audio Demo.healthy (Some "what is two plus two");
                    @Audio Demo.healthy (Some "stop")]) eq_refl) as H.
  cbv in H |- *. split; [exact H | reflexivity].
Defined.

(** Command capture entered with [tts_active] clear prints only
    "Recognized: ..." lines and "Exiting...": its "TTS active, waiting..."
    branch is not taken, since nothing sets the flag while it listens. *)
Theorem capture_never_waits_when_free (W : World) (fuel : nat) (s s' : State W) :
  tts_active s = false ->
  final (listen_for_command W fuel s) = Some s' ->
  exists es, trace s' = (trace s ++ es)%list /\ Forall heard_line es /\
             ~ In (Print (VStr "TTS active, waiting...")) es.
Proof.
  intros Hfree Hf. pose proof (listen_for_command_heard W fuel s Hfree) as H.
  unfold ends_after in H. rewrite Hf in H. destruct H as (_ & _ & es & Ht & Hp).
  exists es. split; [exact Ht|]. split; [exact Hp|].
  intros Hin. rewrite Forall_forall in Hp.
  destruct (Hp _ Hin) as [[t Heq]|Heq]; discriminate.
Qed.

Lemma capture_never_waits_when_free_witness :
  let W := Demo.healthy in
  let s := Demo.start W [@Audio W (Some "what is two plus two")] in
  tts_active s = false /\
  listen_for_command W 2 s
  = Ret (Some "what is two plus two")
        {| stop_flag := false; tts_active := false; q := [];
           trace := [Print (VStr "Recognized: what is two plus two")] |} /\
  exists es, [Print (VStr "Recognized: what is two plus two")] = ([] ++ es)%list /\
             Forall heard_line es /\
             ~ In (@Print W (VStr "TTS active, waiting...")) es.
Proof.
  cbv zeta. split; [reflexivity|]. split; [reflexivity|].
  exact (capture_never_waits_when_free Demo.healthy 2
           (Demo.start Demo.healthy [@Audio Demo.healthy (Some "what is two plus two")])
           _ eq_refl eq_refl).
Defined.

(** After a wake-word utterance, the next utterance heard, if it has no
    stop word and [tts_active] is clear, is the command: it is handed to
    [respond_to_text] as recognized (not lowered), and both backends are
    sent it as the prompt. *)
Theorem wake_then_command_dispatches
    (W : World) (U c : string) (fuel : nat) (s s1 : State W) :
  Text.occurs_ignoring_case "hello" U -> ~ Text.occurs_ignoring_case "stop" U ->
  ~ Text.occurs_ignoring_case "stop" c ->
  stop_flag s = false -> tts_active s = false ->
  vosk_listen W fuel
    (emit [Print (VStr "Wake word detected, listening for command...")] s)
    = Ret (Some c) s1 ->
  handle_recognized_text W (S fuel) U s = respond_to_text W c s1 /\
  In (Post Local (ollama_data c)) (pool_effects W c) /\
  In (Post Cloud (openai_data c)) (pool_effects W c).
Proof.
  intros Hw Hs Hc Hstop Hfree Hl. split.
  - rewrite handle_wake;
      [| now apply not_occurs_contains | now apply TextFacts.contains_lower_spec].
    unfold bind at 1. cbn [listen_for_command]. cbn [stop_flag emit]. rewrite Hstop.
    unfold bind at 1. rewrite Hl.
    pose proof (vosk_listen_listened W fuel
                  (emit [Print (VStr "Wake word detected, listening for command...")] s)) as HL.
    rewrite Hl in HL. cbn in HL. destruct HL as (Hn & _ & Ht & _).
    rewrite (proj2 (TextFacts.truthy_iff c) Hn), (not_occurs_contains _ _ Hc).
    rewrite Ht, Hfree. cbn [negb]. now rewrite (proj2 (TextFacts.truthy_iff c) Hn).
  - unfold pool_effects. rewrite !interleave_In.
    destruct (ollama_effects_shape W c) as (t1 & -> & _).
    destruct (openai_effects_shape W c) as (t2 & -> & _).
    split; [left | right]; now left.
Qed.

Lemma wake_then_command_dispatches_witness :
  let W := Demo.healthy in
  let s := Demo.start W [@Audio W (Some "What is TWO plus two")] in
  Text.occurs_ignoring_case "hello" "hello" /\
  ~ Text.occurs_ignoring_case "stop" "hello" /\
  ~ Text.occurs_ignoring_case "stop" "What is TWO plus two" /\
  handle_recognized_text W 2 "hello" s
  = respond_to_text W "What is TWO plus two"
      {| stop_flag := false; tts_active := false; q := [];
         trace := [Print (VStr "Wake word detected, listening for command...");
                   Print (VStr "Recognized: What is TWO plus two")] |}.
Proof.
  cbv zeta.
  assert (Hw : Text.occurs_ignoring_case "hello" "hello").
  { exists "", "hello", "". split; reflexivity. }
  assert (Hs : ~ Text.occurs_ignoring_case "stop" "hello").
  { intros H. apply TextFacts.contains_lower_spec in H. discriminate. }
  assert (Hc : ~ Text.occurs_ignoring_case "stop" "What is TWO plus two").
  { intros H. apply TextFacts.contains_lower_spec in H. discriminate. }
  split; [exact Hw|]. split; [exact Hs|]. split; [exact Hc|].
  exact (proj1 (wake_then_command_dispatches Demo.healthy "hello" "What is TWO plus two" 1
                  (Demo.start Demo.healthy [@Audio Demo.healthy (Some "What is TWO plus two")])
                  _ Hw Hs Hc eq_refl eq_refl eq_refl)).
Defined.

(** [respond_to_text] never waits on the audio queue: it returns or an
    exception leaves it.  Either way the queue and [stop_flag] are as it
    found them (what is said during dispatch and speech is heard only
    afterwards).  When it returns, [tts_active] is clear; when an exception
    leaves it, [tts_active] is as before unless the exception is the speech
    engine's, which leaves it set. *)
Theorem dispatch_outcome (W : World) (text : string) (s : State W) :
  match respond_to_text W text s with
  | Ret _ s' => q s' = q s /\ stop_flag s' = stop_flag s /\ tts_active s' = false
  | Raise e s' =>
      q s' = q s /\ stop_flag s' = stop_flag s /\
      (tts_active s' = tts_active s \/
       (tts_active s' = true /\ exists v, synthesize W v = Some e))
  | Blocked _ => False
  | OutOfFuel => False
  end.
Proof. apply respond_to_text_outcome. Qed.

(** The listening calls only print: whatever [vosk_listen] or
    [listen_for_command] hears, they send nothing to a backend or to the
    speech engine (a stop word heard during command capture does not call
    [engine.stop()]), and they leave [tts_active] as it was. *)
Theorem listening_only_prints (W : World) (fuel : nat) (s s' : State W) :
  final (vosk_listen W fuel s) = Some s' \/
  final (listen_for_command W fuel s) = Some s' ->
  tts_active s' = tts_active s /\
  exists es, trace s' = (trace s ++ es)%list /\ Forall is_print es.
Proof.
  intros [H|H].
  - pose proof (vosk_listen_listened W fuel s) as HL.
    destruct (vosk_listen W fuel s) as [[t|] s1|e s1|s1|]; cbn in H, HL;
      try discriminate; injection H as <-.
    + destruct HL as (_ & _ & Ht & _ & _ & Ha). now split.
    + destruct HL as (_ & Ht & _ & _ & Ha). now split.
    + destruct HL as (_ & Ht & _ & _ & Ha). now split.
    + destruct HL as (Ht & _ & _ & Ha). now split.
  - pose proof (listen_for_command_captured W fuel s) as HL.
    destruct (listen_for_command W fuel s) as [[t|] s1|e s1|s1|]; cbn in H, HL;
      try discriminate; injection H as <-.
    + destruct HL as (_ & _ & Ht & Ht' & _ & _ & _ & Ha). split; [congruence | exact Ha].
    + destruct HL as (_ & Ht & _ & _ & Ha). now split.
    + destruct HL as (_ & Ht & _ & _ & Ha). now split.
    + destruct HL as (Ht & _ & _ & Ha). now split.
Qed.

Lemma listening_only_prints_witness :
  let W := Demo.healthy in
  let s := Demo.start W [@Audio W (Some "stop it")] in
  listen_for_command W 2 s
  = Ret None {| stop_flag := true; tts_active := false; q := [];
                trace := [Print (VStr "Recognized: stop it"); Print (VStr "Exiting...")] |} /\
  exists es,
    [Print (VStr "Recognized: stop it"); Print (VStr "Exiting...")] = ([] ++ es)%list /\
    Forall (@is_print W) es.
Proof.
  cbv zeta. split; [reflexivity|].
  exact (proj2 (listening_only_prints Demo.healthy 2
                  (Demo.start Demo.healthy [@Audio Demo.healthy (Some "stop it")])
                  _ (or_intror eq_refl))).
Defined.

(** However the pool interleaves the two workers of a dispatch, each
    worker's own effects keep their order, and each worker makes exactly
    one request, for the command given, whether it succeeds or fails
    (nothing is retried). *)
Theorem pool_keeps_each_worker_in_order (W : World) (text : string) :
  filter (by_worker Local) (pool_effects W text) = fst (get_ollama_response W text) /\
  filter (by_worker Cloud) (pool_effects W text) = fst (get_openai_response W text) /\
  requests (fst (get_ollama_response W text)) = [(Local, ollama_data text)] /\
  requests (fst (get_openai_response W text)) = [(Cloud, openai_data text)].
Proof.
  unfold pool_effects.
  destruct (ollama_effects_shape W text) as (t1 & -> & H1).
  destruct (openai_effects_shape W text) as (t2 & -> & H2).
  split; [|split; [|split]].
  - apply interleave_filter_l.
    + destruct H1 as [->|(d & detail & ->)]; reflexivity.
    + destruct H2 as [->|(d & detail & ->)]; reflexivity.
  - apply interleave_filter_r.
    + destruct H1 as [->|(d & detail & ->)]; reflexivity.
    + destruct H2 as [->|(d & detail & ->)]; reflexivity.
  - destruct H1 as [->|(d & detail & ->)]; reflexivity.
  - destruct H2 as [->|(d & detail & ->)]; reflexivity.
Qed.
